(** * pyroute2.netlink.rtnl.ifinfmsg: interface-information messages

    A shallow embedding of [pyroute2/netlink/rtnl/ifinfmsg.py]: the flag
    catalogue and the name/bit translation, the operational-state table,
    the counter blocks, the link-info variant resolver, the [netns_fd]
    attribute and the message-level [encode].  Definitions come first,
    their properties after. *)

From Stdlib Require Import ZArith Lia List String Ascii Bool Permutation.
From Stdlib.Strings Require Import Byte.
From stdpp Require Import base decidable option list strings gmap.

Local Open Scope string_scope.
Local Open Scope list_scope.
Local Open Scope Z_scope.

(** ** Python exceptions and results *)

(** The key of a failed dictionary lookup. *)
Inductive pykey :=
| KStr (s : string)
| KInt (z : Z).

Inductive exn :=
| KeyError (key : pykey)
| IndexError
| TypeError
| struct_error
| OSError (errno : string).

Inductive result (A : Type) :=
| Ok (a : A)
| Raise (e : exn).
Arguments Ok {A} a.
Arguments Raise {A} e.

#[global] Instance result_ret : MRet result := fun A a => Ok a.
#[global] Instance result_bind : MBind result := fun A B f r =>
  match r with
  | Ok a => f a
  | Raise e => Raise e
  end.

#[global] Instance pykey_eq_dec : EqDecision pykey.
Proof. solve_decision. Defined.
#[global] Instance exn_eq_dec : EqDecision exn.
Proof. solve_decision. Defined.

(** ** Insertion-ordered dictionaries

    A Python [dict] iterates in insertion order (Python 3.7 and later);
    assigning to a key that is present replaces its value in place. *)

Section Dict.

Context {K V : Type} `{EqDecision K}.

Fixpoint dict_set (k : K) (v : V) (d : list (K * V)) : list (K * V) :=
  match d with
  | [] => [(k, v)]
  | (k', v') :: r =>
      if decide (k = k') then (k, v) :: r else (k', v') :: dict_set k v r
  end.

(** [dict(pairs)] *)
Definition dict (pairs : list (K * V)) : list (K * V) :=
  fold_left (fun d kv => dict_set (fst kv) (snd kv) d) pairs [].

Fixpoint dict_get (k : K) (d : list (K * V)) : option V :=
  match d with
  | [] => None
  | (k', v') :: r => if decide (k = k') then Some v' else dict_get k r
  end.

End Dict.

(** [d[k]] on a dictionary with string keys. *)
Definition getitem {V} (d : list (string * V)) (k : string) : result V :=
  match dict_get k d with
  | Some v => Ok v
  | None => Raise (KeyError (KStr k))
  end.

(** ** Interface flags *)

Definition IFF_UP : Z := 0x1.
Definition IFF_BROADCAST : Z := 0x2.
Definition IFF_DEBUG : Z := 0x4.
Definition IFF_LOOPBACK : Z := 0x8.
Definition IFF_POINTOPOINT : Z := 0x10.
Definition IFF_NOTRAILERS : Z := 0x20.
Definition IFF_RUNNING : Z := 0x40.
Definition IFF_NOARP : Z := 0x80.
Definition IFF_PROMISC : Z := 0x100.
Definition IFF_ALLMULTI : Z := 0x200.
Definition IFF_MASTER : Z := 0x400.
Definition IFF_SLAVE : Z := 0x800.
Definition IFF_MULTICAST : Z := 0x1000.
Definition IFF_PORTSEL : Z := 0x2000.
Definition IFF_AUTOMEDIA : Z := 0x4000.
Definition IFF_DYNAMIC : Z := 0x8000.
Definition IFF_LOWER_UP : Z := 0x10000.
Definition IFF_DORMANT : Z := 0x20000.
Definition IFF_ECHO : Z := 0x40000.

(** The module namespace ([globals()]) at the point where the catalogue is
    built, restricted to its integer constants: the nineteen flags, in the
    order of their definition.  [IFF_MASK] and [IFF_VOLATILE] are defined
    after the call and are not part of it. *)
Definition IFF_globals : list (string * Z) :=
  [ ("IFF_UP", IFF_UP); ("IFF_BROADCAST", IFF_BROADCAST);
    ("IFF_DEBUG", IFF_DEBUG); ("IFF_LOOPBACK", IFF_LOOPBACK);
    ("IFF_POINTOPOINT", IFF_POINTOPOINT); ("IFF_NOTRAILERS", IFF_NOTRAILERS);
    ("IFF_RUNNING", IFF_RUNNING); ("IFF_NOARP", IFF_NOARP);
    ("IFF_PROMISC", IFF_PROMISC); ("IFF_ALLMULTI", IFF_ALLMULTI);
    ("IFF_MASTER", IFF_MASTER); ("IFF_SLAVE", IFF_SLAVE);
    ("IFF_MULTICAST", IFF_MULTICAST); ("IFF_PORTSEL", IFF_PORTSEL);
    ("IFF_AUTOMEDIA", IFF_AUTOMEDIA); ("IFF_DYNAMIC", IFF_DYNAMIC);
    ("IFF_LOWER_UP", IFF_LOWER_UP); ("IFF_DORMANT", IFF_DORMANT);
    ("IFF_ECHO", IFF_ECHO) ].

(** The identifiers of the flag constants, in declaration order. *)
Definition IFF_identifiers : list string := List.map fst IFF_globals.

Definition IFF_MASK : Z :=
  Z.lor (Z.lor (Z.lor (Z.lor (Z.lor IFF_UP IFF_DEBUG) IFF_NOTRAILERS)
                  IFF_NOARP) IFF_PROMISC) IFF_ALLMULTI.

Definition IFF_VOLATILE : Z :=
  Z.lor (Z.lor (Z.lor (Z.lor (Z.lor (Z.lor (Z.lor (Z.lor
    IFF_LOOPBACK IFF_POINTOPOINT) IFF_BROADCAST) IFF_ECHO) IFF_MASTER)
    IFF_SLAVE) IFF_RUNNING) IFF_LOWER_UP) IFF_DORMANT.

(** A flag name as [names2flags] reads it: negated when it starts with "!",
    and then its base name is the rest. *)
Definition is_negated (flag : string) : bool :=
  match flag with
  | String c _ => Ascii.eqb c "!"%char
  | EmptyString => false
  end.

Definition base_name (flag : string) : string :=
  match flag with
  | String c tl => if Ascii.eqb c "!"%char then tl else flag
  | EmptyString => EmptyString
  end.

Definition non_negated (flags : list string) : list string :=
  List.filter (fun flag => negb (is_negated flag)) flags.

(** A catalogue name is plain: not empty, and not itself starting with "!". *)
Definition plain (name : string) : Prop :=
  name <> "" /\ is_negated name = false.

#[global] Instance plain_dec name : Decision (plain name).
Proof. unfold plain. apply _. Defined.

Section FlagCatalogue.

(** Modelled from the spec: [map_namespace] ([pyroute2.common]) is not
    among the sources.  The catalogue it builds is "a fixed mapping from
    symbolic name to single-bit value" together with the reverse mapping,
    in declaration order, over the constants of the namespace whose
    identifier starts with the prefix.  The symbolic name under which a
    constant is entered is its parameter [symbolic].  The module's
    catalogue keeps the identifiers (["IFF_UP"] names bit 0x1): there
    [symbolic] is [id]. *)
Variable symbolic : string -> string.

Definition map_namespace (prefix : string) (ns : list (string * Z))
  : list (string * Z) * list (Z * string) :=
  let sel := List.filter (fun iv => String.prefix prefix (fst iv)) ns in
  (dict (List.map (fun iv => (symbolic (fst iv), snd iv)) sel),
   dict (List.map (fun iv => (snd iv, symbolic (fst iv))) sel)).

Definition IFF_NAMES : list (string * Z) :=
  fst (map_namespace "IFF" IFF_globals).
Definition IFF_VALUES : list (Z * string) :=
  snd (map_namespace "IFF" IFF_globals).

(** [flags2names]: the loop runs over the keys of [IFF_VALUES] in
    insertion order and appends [IFF_VALUES[flag]], the value stored
    under the key at hand. *)
Definition flags2names (flags mask : Z) : list string :=
  List.map snd
    (List.filter
       (fun fv => Z.eqb (Z.land (Z.land (fst fv) mask) flags) (fst fv))
       IFF_VALUES).

(** The default of the [mask] argument. *)
Definition flags2names_default (flags : Z) : list string :=
  flags2names flags 0xffffffff.

(** The body of the loop of [names2flags], from the state [(ret, mask)]. *)
Fixpoint names2flags_from (flags : list string) (ret mask : Z)
  : result (Z * Z) :=
  match flags with
  | [] => Ok (ret, mask)
  | flag :: rest =>
      match flag with
      | EmptyString => Raise IndexError
      | String c tl =>
          if Ascii.eqb c "!"%char then
            v ← getitem IFF_NAMES tl;
            names2flags_from rest ret (Z.lor mask v)
          else
            v ← getitem IFF_NAMES flag;
            v' ← getitem IFF_NAMES flag;
            names2flags_from rest (Z.lor ret v) (Z.lor mask v')
      end
  end.

Definition names2flags (flags : list string) : result (Z * Z) :=
  names2flags_from flags 0 0.

(** The names of the catalogue, in declaration order. *)
Definition catalogue_order : list string :=
  List.map symbolic IFF_identifiers.

(** The bit of a name of the catalogue. *)
Definition flag_value (name : string) : Z :=
  default 0 (dict_get name IFF_NAMES).

(** A flag of a list given to [names2flags]: a name of the catalogue,
    optionally prefixed with "!". *)
Definition flag_name (flag : string) : Prop :=
  exists name, name ∈ List.map fst IFF_NAMES /\
               (flag = name \/ flag = "!" +:+ name).

End FlagCatalogue.

(** ** Bits *)

(** The union of a list of masks. *)
Definition orlist (zs : list Z) : Z := fold_right Z.lor 0 zs.

(** A value with exactly one bit set. *)
Definition single_bit (z : Z) : Prop := exists k, 0 <= k /\ z = 2 ^ k.

(** ** Python values held by a message or an attribute *)

Inductive pyval :=
| PNone
| PInt (n : Z)
| PStr (s : string)
| PSet (names : list string)
| PTuple (names : list string)
| PList (names : list string).

#[global] Instance pyval_eq_dec : EqDecision pyval.
Proof. solve_decision. Defined.

(** [self[name]] on the dictionary part of a message or attribute. *)
Definition getfield (self : gmap string pyval) (name : string) : result pyval :=
  match self !! name with
  | Some v => Ok v
  | None => Raise (KeyError (KStr name))
  end.

(** ** Fixed-width fields

    Modelled from the spec: the base classes [nla] and [nlmsg]
    ([pyroute2.netlink]) are not among the sources.  What is modelled is
    their Primitive Field Codec over the [fields] a class declares:
    "fixed-width scalar fields (integers of 1/2/4/8 bytes) ... with a
    declared byte order", "unaligned fields packed contiguously", read and
    written "in strict declaration order", a pad field being "always 0 on
    encode, ignored on decode".  The TLV frame around an attribute's payload
    is outside of it. *)

Inductive byteorder := LittleEndian | BigEndian.

(** The format characters the module uses and their widths in bytes. *)
Definition calcsize (fmt : string) : option nat :=
  if decide (fmt = "B") then Some 1%nat
  else if decide (fmt = "H") then Some 2%nat
  else if decide (fmt = "i") then Some 4%nat
  else if decide (fmt = "I") then Some 4%nat
  else if decide (fmt = "Q") then Some 8%nat
  else None.

Definition is_signed (fmt : string) : bool := bool_decide (fmt = "i").

Definition byte_of_Z (z : Z) : byte :=
  default x00 (Byte.of_N (Z.to_N (z mod 256))).
Definition Z_of_byte (b : byte) : Z := Z.of_N (Byte.to_N b).

Fixpoint le_bytes (n : nat) (z : Z) : list byte :=
  match n with
  | O => []
  | S k => byte_of_Z z :: le_bytes k (z / 256)
  end.

Fixpoint le_value (bs : list byte) : Z :=
  match bs with
  | [] => 0
  | b :: r => Z_of_byte b + 256 * le_value r
  end.

Definition in_order (bo : byteorder) (bs : list byte) : list byte :=
  match bo with
  | LittleEndian => bs
  | BigEndian => rev bs
  end.

Definition fmt_min (fmt : string) (n : nat) : Z :=
  if is_signed fmt then - 2 ^ (8 * Z.of_nat n - 1) else 0.
Definition fmt_max (fmt : string) (n : nat) : Z :=
  if is_signed fmt then 2 ^ (8 * Z.of_nat n - 1) else 2 ^ (8 * Z.of_nat n).

Definition pack (bo : byteorder) (fmt : string) (v : pyval)
  : result (list byte) :=
  match calcsize fmt, v with
  | Some n, PInt z =>
      if (fmt_min fmt n <=? z)%Z && (z <? fmt_max fmt n)%Z
      then Ok (in_order bo (le_bytes n z))
      else Raise struct_error
  | _, _ => Raise struct_error
  end.

Definition unpack (bo : byteorder) (fmt : string) (bs : list byte)
  : result pyval :=
  match calcsize fmt with
  | Some n =>
      if decide (length bs = n) then
        let u := le_value (in_order bo bs) in
        Ok (PInt (if is_signed fmt && (fmt_max fmt n <=? u)%Z
                  then u - 2 ^ (8 * Z.of_nat n) else u))
      else Raise struct_error
  | None => Raise struct_error
  end.

Definition is_pad (name : string) : bool := String.prefix "__" name.

Fixpoint encode_fields (bo : byteorder) (fields : list (string * string))
  (self : gmap string pyval) : result (list byte) :=
  match fields with
  | [] => Ok []
  | (name, fmt) :: rest =>
      v ← (if is_pad name then Ok (PInt 0) else getfield self name);
      bs ← pack bo fmt v;
      tail ← encode_fields bo rest self;
      Ok (bs ++ tail)
  end.

Fixpoint decode_fields (bo : byteorder) (fields : list (string * string))
  (buf : list byte) (self : gmap string pyval)
  : result (gmap string pyval * list byte) :=
  match fields with
  | [] => Ok (self, buf)
  | (name, fmt) :: rest =>
      match calcsize fmt with
      | Some n =>
          if decide (length buf < n)%nat then Raise struct_error
          else
            v ← unpack bo fmt (take n buf);
            decode_fields bo rest (drop n buf)
              (if is_pad name then self else <[name := v]> self)
      | None => Raise struct_error
      end
  end.

(** The sum of the declared widths. *)
Fixpoint fields_size (fields : list (string * string)) : option nat :=
  match fields with
  | [] => Some O
  | (_, fmt) :: rest =>
      match calcsize fmt, fields_size rest with
      | Some n, Some m => Some (n + m)%nat
      | _, _ => None
      end
  end.

(** What decoding the counters of the mapping [m] stores, name by name. *)
Definition stored (m : gmap string Z) (acc : gmap string pyval)
  (names : list string) : gmap string pyval :=
  fold_left (fun a name => <[name := PInt (default 0 (m !! name))]> a)
    names acc.

(** ** Operational states and counter names *)

Definition states : list string :=
  ["UNKNOWN"; "NOTPRESENT"; "DOWN"; "LOWERLAYERDOWN"; "TESTING"; "DORMANT";
   "UP"].

(** [enumerate(l)] *)
Definition enumerate {A} (l : list A) : list (Z * A) :=
  imap (fun i a => (Z.of_nat i, a)) l.

(** [dict(pairs)] where only lookups are made: a later pair replaces an
    earlier one with the same key. *)
Definition dict_map {K V} `{Countable K} (pairs : list (K * V)) : gmap K V :=
  fold_left (fun d kv => <[fst kv := snd kv]> d) pairs ∅.

Definition state_by_name : gmap string Z :=
  dict_map (List.map (fun i => (snd i, fst i)) (enumerate states)).
Definition state_by_code : gmap Z string :=
  dict_map (enumerate states).

Definition stats_names : list string :=
  ["rx_packets"; "tx_packets"; "rx_bytes"; "tx_bytes"; "rx_errors";
   "tx_errors"; "rx_dropped"; "tx_dropped"; "multicast"; "collisions";
   "rx_length_errors"; "rx_over_errors"; "rx_crc_errors"; "rx_frame_errors";
   "rx_fifo_errors"; "rx_missed_errors"; "tx_aborted_errors";
   "tx_carrier_errors"; "tx_fifo_errors"; "tx_heartbeat_errors";
   "tx_window_errors"; "rx_compressed"; "tx_compressed"].

(** ** class ifinfbase *)

Module ifinfbase.

Definition fields : list (string * string) :=
  [("family", "B"); ("__align", "B"); ("ifi_type", "H"); ("index", "i");
   ("flags", "I"); ("change", "I")].

(** *** class state(nla) *)

Module state.

Definition fields : list (string * string) := [("value", "B")].

(** [encode]: [self.value] is the name, [self] the dictionary part. *)
Definition encode (bo : byteorder) (value : string)
  (self : gmap string pyval) : result (list byte) :=
  match state_by_name !! value with
  | None => Raise (KeyError (KStr value))
  | Some code => encode_fields bo fields (<["value" := PInt code]> self)
  end.

(** [decode]: the name left in [self.value]. *)
Definition decode (bo : byteorder) (buf : list byte) : result string :=
  r ← decode_fields bo fields buf ∅;
  v ← getfield (fst r) "value";
  match v with
  | PInt code =>
      match state_by_code !! code with
      | Some name => Ok name
      | None => Raise (KeyError (KInt code))
      end
  | _ => Raise TypeError
  end.

End state.

(** *** class ifstats(nla), class ifstats64(nla) *)

Module ifstats.

Definition fields : list (string * string) :=
  List.map (fun i => (i, "I")) stats_names.

End ifstats.

Module ifstats64.

Definition fields : list (string * string) :=
  List.map (fun i => (i, "Q")) stats_names.

End ifstats64.

(** *** ifinfbase.encode

    [self] is the dictionary part of the message.  The base class's
    [encode] that [super(ifinfbase, self).encode()] reaches ([nlmsg] or
    [nla], not among the sources) is the parameter [super_encode]; the
    message is changed in place, so the call gives the message as it is
    left together with the outcome. *)

Definition names_of (v : pyval) : option (list string) :=
  match v with
  | PSet names | PTuple names | PList names => Some names
  | PNone | PInt _ | PStr _ => None
  end.

Definition encode (symbolic : string -> string)
  (super_encode : gmap string pyval -> result (list byte))
  (self : gmap string pyval) : gmap string pyval * result (list byte) :=
  match getfield self "flags" with
  | Raise e => (self, Raise e)
  | Ok f =>
      match names_of f with
      | Some names =>
          match names2flags symbolic names with
          | Raise e => (self, Raise e)
          | Ok (v, m) =>
              let self' :=
                <["change" := PInt m]> (<["flags" := PInt v]> self) in
              (self', super_encode self')
          end
      | None => (self, super_encode self)
      end
  end.

(** *** class netns_fd(nla) *)

Module netns_fd.

Definition fields : list (string * string) := [("value", "I")].
Definition netns_run_dir : string := "/var/run/netns".

(** The two ways to specify the namespace: a descriptor of an open
    file, or a file name. *)
Inductive value_t :=
| Fd (n : Z)
| Name (name : string).

(** Calls made to the operating system, in the order they are made. *)
Inductive os_call :=
| sys_open (path : string)
| sys_close (fd : nat).

(** The attribute object ([value], [netns_fd], its dictionary part
    [items]) and the process state it acts on: the descriptors that are
    open, the paths that can be opened, the calls made so far. *)
Record state := State {
  value : value_t;
  netns_fd : option nat;
  items : gmap string pyval;
  open_fds : gset nat;
  files : gset string;
  calls : list os_call
}.

Definition M (A : Type) : Type := state -> result A * state.

Definition ret {A} (a : A) : M A := fun s => (Ok a, s).
Definition bind {A B} (m : M A) (f : A -> M B) : M B := fun s =>
  match m s with
  | (Ok a, s') => f a s'
  | (Raise e, s') => (Raise e, s')
  end.
Definition lift {A} (r : result A) : M A := fun s => (r, s).

#[global] Instance M_ret : MRet M := @ret.
#[global] Instance M_bind : MBind M := fun A B f m => bind m f.

Definition log (c : os_call) : M unit := fun s =>
  (Ok tt, State (value s) (netns_fd s) (items s) (open_fds s) (files s)
            (calls s ++ [c])).

(** [os.open(path, os.O_RDONLY)]: a descriptor that is not in use, or
    [OSError] when the path cannot be opened. *)
Definition os_open (path : string) : M nat := fun s =>
  let s1 := snd (log (sys_open path) s) in
  if decide (path ∈ files s1) then
    let fd := fresh (open_fds s1) in
    (Ok fd, State (value s1) (netns_fd s1) (items s1)
              ({[fd]} ∪ open_fds s1) (files s1) (calls s1))
  else (Raise (OSError "ENOENT"), s1).

(** [os.close(fd)]: [OSError] when the descriptor is not open. *)
Definition os_close (fd : nat) : M unit := fun s =>
  let s1 := snd (log (sys_close fd) s) in
  if decide (fd ∈ open_fds s1) then
    (Ok tt, State (value s1) (netns_fd s1) (items s1)
              (open_fds s1 ∖ {[fd]}) (files s1) (calls s1))
  else (Raise (OSError "EBADF"), s1).

Definition set_netns_fd (fd : nat) : M unit := fun s =>
  (Ok tt, State (value s) (Some fd) (items s) (open_fds s) (files s)
            (calls s)).

Definition setitem (name : string) (v : pyval) : M unit := fun s =>
  (Ok tt, State (value s) (netns_fd s) (<[name := v]> (items s))
            (open_fds s) (files s) (calls s)).

Section Methods.

(** [nla.encode], not among the sources, on the class's [fields] and
    the dictionary part of the attribute. *)
Variable nla_encode :
  list (string * string) -> gmap string pyval -> result (list byte).

Definition close : M unit := fun s =>
  match netns_fd s with
  | Some fd => os_close fd s
  | None => ret tt s
  end.

Definition store_value : M unit := fun s =>
  match value s with
  | Fd n => setitem "value" (PInt n) s
  | Name name =>
      (fd ← os_open (netns_run_dir +:+ "/" +:+ name);
       set_netns_fd fd;;
       setitem "value" (PInt (Z.of_nat fd)) : M unit) s
  end.

Definition encode : M (list byte) :=
  close;;
  store_value;;
  (fun s => lift (nla_encode fields (items s)) s) : M (list byte).

Definition __del__ : M unit := close.

End Methods.

(** The first step of [encode], [close], goes through. *)
Definition close_ok (s : state) : Prop :=
  match netns_fd s with
  | Some fd => fd ∈ open_fds s
  | None => True
  end.

#[global] Instance close_ok_dec s : Decision (close_ok s).
Proof. unfold close_ok. destruct (netns_fd s); apply _. Defined.

(** The state [close] leaves and the calls it makes. *)
Definition closed (s : state) : state :=
  match netns_fd s with
  | Some fd =>
      State (value s) (netns_fd s) (items s) (open_fds s ∖ {[fd]}) (files s)
        (calls s ++ [sys_close fd])
  | None => s
  end.

(** The path [encode] opens for a name. *)
Definition netns_path (name : string) : string :=
  netns_run_dir +:+ "/" +:+ name.

(** The state [store_value] leaves when it opens [name]. *)
Definition opened (name : string) (s : state) : state :=
  let fd := fresh (open_fds s) in
  State (value s) (Some fd) (<["value" := PInt (Z.of_nat fd)]> (items s))
    ({[fd]} ∪ open_fds s) (files s)
    (calls s ++ [sys_open (netns_path name)]).

(** The calls [close] makes. *)
Definition close_calls (s : state) : list os_call :=
  match netns_fd s with
  | Some fd => [sys_close fd]
  | None => []
  end.

(** The calls one [encode] makes: the [close] of the descriptor held
    from before, then, when that went through and the value is a name,
    one [open]. *)
Definition encode_calls (s : state) : list os_call :=
  close_calls s ++
  (if decide (close_ok s) then
     match value s with
     | Name name => [sys_open (netns_path name)]
     | Fd _ => []
     end
   else []).

(** An attribute with the descriptor 7 as its value, in a process that
    has the descriptors 0, 1 and 2 open. *)
Definition literal_state : state :=
  State (Fd 7) None ∅ {[0%nat; 1%nat; 2%nat]} {["/var/run/netns/blue"]} [].

(** An attribute with the name "blue" as its value, in a process that
    has the descriptors 0, 1 and 2 open. *)
Definition named_state : state :=
  State (Name "blue") None ∅ {[0%nat; 1%nat; 2%nat]}
    {["/var/run/netns/blue"]} [].

(** An attribute with the name "red" as its value, for which there is no
    file. *)
Definition missing_state : state :=
  State (Name "red") None ∅ {[0%nat; 1%nat; 2%nat]}
    {["/var/run/netns/blue"]} [].

(** The assignment [attr.value = v] between two calls of [encode]. *)
Definition with_value (v : value_t) (s : state) : state :=
  State v (netns_fd s) (items s) (open_fds s) (files s) (calls s).

(** An attribute that holds the descriptor 3 from an earlier [encode]. *)
Definition held_state : state :=
  State (Name "blue") (Some 3%nat) {["value" := PInt 3]}
    {[0%nat; 1%nat; 2%nat; 3%nat]} {["/var/run/netns/blue"]}
    [sys_open "/var/run/netns/blue"].

End netns_fd.

(** *** class ifinfo(nla) *)

Module ifinfo.

(** The attribute classes [info_data] chooses among. *)
Inductive nla_class := vlan_data | bond_data | veth_data | hex.

(** Modelled from the spec: [nla.get_attr] is not among the sources.
    It reads "the selector value ... from a named sibling" among the
    attributes decoded so far, and gives [None] when there is none. *)
Fixpoint get_attr (attrs : list (string * pyval)) (name : string)
  : pyval :=
  match attrs with
  | [] => PNone
  | (n, v) :: rest => if decide (n = name) then v else get_attr rest name
  end.

Definition info_data (attrs : list (string * pyval)) : nla_class :=
  let kind := get_attr attrs "IFLA_INFO_KIND" in
  if decide (kind = PStr "vlan") then vlan_data
  else if decide (kind = PStr "bond") then bond_data
  else if decide (kind = PStr "veth") then veth_data
  else hex.

Definition nla_map : list (string * string) :=
  [("IFLA_INFO_UNSPEC", "none"); ("IFLA_INFO_KIND", "asciiz");
   ("IFLA_INFO_DATA", "info_data"); ("IFLA_INFO_XSTATS", "hex");
   ("IFLA_INFO_SLAVE_KIND", "asciiz");
   ("IFLA_INFO_SLAVE_DATA", "info_data")].

(** **** class vlan_data(nla): class vlan_flags(nla) *)

Module vlan_data.

Module vlan_flags.

Definition fields : list (string * string) := [("flags", "I"); ("mask", "I")].

End vlan_flags.

End vlan_data.

(** **** class bond_data(nla): class arp_ip_target(nla)

    One field of sixteen unsigned 32-bit integers. *)

Module bond_data.

Module arp_ip_target.

Definition fields : list (string * string) := [("targets", "16I")].

End arp_ip_target.

End bond_data.

End ifinfo.

(** *** class ifmap(nla) *)

Module ifmap.

Definition fields : list (string * string) :=
  [("mem_start", "Q"); ("mem_end", "Q"); ("base_addr", "Q"); ("irq", "H");
   ("dma", "B"); ("port", "B")].

End ifmap.

(** *** class af_spec(nla) *)

Module af_spec.

Module inet.

Definition field_names : list string :=
  ["sysctl"; "forwarding"; "mc_forwarding"; "proxy_arp"; "accept_redirects";
   "secure_redirects"; "send_redirects"; "shared_media"; "rp_filter";
   "accept_source_route"; "bootp_relay"; "log_martians"; "tag"; "arp_filter";
   "medium_id"; "disable_xfrm"; "disable_policy"; "force_igmp_version";
   "arp_announce"; "arp_ignore"; "promote_secondaries"; "arp_accept";
   "arp_notify"; "accept_local"; "src_valid_mark"; "proxy_arp_pvlan";
   "route_localnet"].

Definition fields : list (string * string) :=
  List.map (fun i => (i, "I")) field_names.

End inet.

Module inet6.

Module ipv6_devconf.

Definition field_names : list string :=
  ["forwarding"; "hop_limit"; "mtu"; "accept_ra"; "accept_redirects";
   "autoconf"; "dad_transmits"; "router_solicitations";
   "router_solicitation_interval"; "router_solicitation_delay";
   "use_tempaddr"; "temp_valid_lft"; "temp_prefered_lft"; "regen_max_retry";
   "max_desync_factor"; "max_addresses"; "force_mld_version";
   "accept_ra_defrtr"; "accept_ra_pinfo"; "accept_ra_rtr_pref";
   "router_probe_interval"; "accept_ra_rt_info_max_plen"; "proxy_ndp";
   "optimistic_dad"; "accept_source_route"; "mc_forwarding"; "disable_ipv6";
   "accept_dad"; "force_tllao"; "ndisc_notify"].

Definition fields : list (string * string) :=
  List.map (fun i => (i, "I")) field_names.

End ipv6_devconf.

Module ipv6_cache_info.

Definition fields : list (string * string) :=
  [("max_reasm_len", "I"); ("tstamp", "I"); ("reachable_time", "I");
   ("retrans_time", "I")].

End ipv6_cache_info.

Module ipv6_stats.

Definition field_names : list string :=
  ["inoctets"; "fragcreates"; "indiscards"; "num"; "outoctets";
   "outnoroutes"; "inbcastoctets"; "outforwdatagrams"; "outpkts";
   "reasmtimeout"; "inhdrerrors"; "reasmreqds"; "fragfails"; "outmcastpkts";
   "inaddrerrors"; "inmcastpkts"; "reasmfails"; "outdiscards";
   "outbcastoctets"; "inmcastoctets"; "inpkts"; "fragoks"; "intoobigerrors";
   "inunknownprotos"; "intruncatedpkts"; "outbcastpkts"; "reasmoks";
   "inbcastpkts"; "innoroutes"; "indelivers"; "outmcastoctets"].

Definition fields : list (string * string) :=
  List.map (fun i => (i, "I")) field_names.

End ipv6_stats.

Module icmp6_stats.

Definition fields : list (string * string) :=
  [("num", "Q"); ("inerrors", "Q"); ("outmsgs", "Q"); ("outerrors", "Q");
   ("inmsgs", "Q")].

End icmp6_stats.

End inet6.

End af_spec.

End ifinfbase.

(** ** Sample inputs *)

(** The header fields of a message hold integers that fit their formats. *)
Definition header_fits (self : gmap string pyval) : Prop :=
  exists family ifi_type index flags change,
    self !! "family" = Some (PInt family) /\ 0 <= family < 2 ^ 8 /\
    self !! "ifi_type" = Some (PInt ifi_type) /\ 0 <= ifi_type < 2 ^ 16 /\
    self !! "index" = Some (PInt index) /\ - 2 ^ 31 <= index < 2 ^ 31 /\
    self !! "flags" = Some (PInt flags) /\ 0 <= flags < 2 ^ 32 /\
    self !! "change" = Some (PInt change) /\ 0 <= change < 2 ^ 32.

(** A message of family 0, link type 1, index 2, flags [IFF_UP], change
    mask [IFF_UP]. *)
Definition sample_header : gmap string pyval :=
  <["family" := PInt 0]> (<["ifi_type" := PInt 1]> (<["index" := PInt 2]>
    (<["flags" := PInt IFF_UP]> (<["change" := PInt IFF_UP]> ∅)))).

(** The counters count down from the largest 32-bit value. *)
Definition sample_counters : gmap string Z :=
  list_to_map
    (imap (fun i name => (name, 0xffffffff - Z.of_nat i)) stats_names).


(** ** Notions used by the further properties *)

(** What one flag of the list adds to the value and to the mask in
    [names2flags]. *)
Definition flag_bits (symbolic : string -> string) (flag : string)
  : result (Z * Z) :=
  match flag with
  | EmptyString => Raise IndexError
  | String c tl =>
      if Ascii.eqb c "!"%char then
        v ← getitem (IFF_NAMES symbolic) tl; Ok (0, v)
      else
        v ← getitem (IFF_NAMES symbolic) flag;
        v' ← getitem (IFF_NAMES symbolic) flag;
        Ok (v, v')
  end.

(** A flag whose lookup goes through: not empty, its base name a key of
    [IFF_NAMES]. *)
Definition known_flag (symbolic : string -> string) (flag : string) : Prop :=
  flag <> "" /\ base_name flag ∈ List.map fst (IFF_NAMES symbolic).

(** The exception a flag raises when its lookup does not go through. *)
Definition flag_error (flag : string) : exn :=
  if decide (flag = "") then IndexError
  else KeyError (KStr (base_name flag)).

(** The bits of the nineteen flags together. *)
Definition IFF_ALL : Z := orlist (List.map snd IFF_globals).

(** [x] has no bit outside [y]. *)
Definition bits_sub (x y : Z) : Prop := Z.land x y = x.

(** The thirteen field lists the classes of the module declare, in the
    order of the source, the message header first. *)
Definition declared_fields : list (list (string * string)) :=
  [ifinfbase.fields; ifinfbase.netns_fd.fields; ifinfbase.state.fields;
   ifinfbase.ifstats.fields; ifinfbase.ifstats64.fields;
   ifinfbase.ifmap.fields; ifinfbase.ifinfo.vlan_data.vlan_flags.fields;
   ifinfbase.ifinfo.bond_data.arp_ip_target.fields;
   ifinfbase.af_spec.inet.fields;
   ifinfbase.af_spec.inet6.ipv6_devconf.fields;
   ifinfbase.af_spec.inet6.ipv6_cache_info.fields;
   ifinfbase.af_spec.inet6.ipv6_stats.fields;
   ifinfbase.af_spec.inet6.icmp6_stats.fields].

(** The names under which decoding stores: those of the fields that are
    no pads. *)
Definition stored_names (fields : list (string * string)) : list string :=
  List.filter (fun name => negb (is_pad name)) (List.map fst fields).

(** A field of [self] can be packed: its format is known and, unless it
    is a pad, [self] holds an integer in the range of the format. *)
Definition field_fits (self : gmap string pyval) (nf : string * string)
  : Prop :=
  exists n, calcsize (snd nf) = Some n /\
    (is_pad (fst nf) = true \/
     exists z, self !! fst nf = Some (PInt z) /\
               fmt_min (snd nf) n <= z < fmt_max (snd nf) n).

(** A format of one integer: one of the format characters, without a
    repeat count. *)
Definition single_integer (fmt : string) : bool :=
  bool_decide (fmt ∈ ["B"; "H"; "i"; "I"; "Q"]).

(** A field list the modelled codec covers in both directions: every
    field holds one integer and none is a pad. *)
Definition codec_covers (fields : list (string * string)) : bool :=
  forallb (fun nf => single_integer (snd nf) && negb (is_pad (fst nf)))
    fields.

(** An interface map with the largest values its fields hold. *)
Definition sample_ifmap : gmap string pyval :=
  <["mem_start" := PInt 0xffffffffffffffff]> (<["mem_end" := PInt 1]>
    (<["base_addr" := PInt 0x3f8]> (<["irq" := PInt 0xffff]>
       (<["dma" := PInt 0]> (<["port" := PInt 0xff]> ∅))))).

(** * Properties *)

(** ** Bytes and fixed-width integers *)

Lemma Z_of_byte_of_Z (z : Z) : Z_of_byte (byte_of_Z z) = z mod 256.
Proof.
  unfold Z_of_byte, byte_of_Z.
  assert (Hr : 0 <= z mod 256 < 256) by (apply Z.mod_pos_bound; lia).
  destruct (Byte.of_N (Z.to_N (z mod 256))) as [b|] eqn:E; simpl.
  - apply Byte.to_of_N in E. rewrite E. lia.
  - apply Byte.of_N_None_iff in E. lia.
Qed.

Lemma length_le_bytes (n : nat) (z : Z) : length (le_bytes n z) = n.
Proof. revert z; induction n; intros; simpl; auto. Qed.

Lemma le_value_le_bytes (n : nat) (z : Z) :
  le_value (le_bytes n z) = z mod 2 ^ (8 * Z.of_nat n).
Proof.
  revert z; induction n as [|n IH]; intros z.
  - simpl. now rewrite Z.mod_1_r.
  - cbn [le_bytes le_value]. rewrite Z_of_byte_of_Z, IH.
    replace (8 * Z.of_nat (S n)) with (8 + 8 * Z.of_nat n) by lia.
    rewrite Z.pow_add_r by lia. change (2 ^ 8) with 256.
    rewrite Z.rem_mul_r by lia. reflexivity.
Qed.

Lemma in_order_involutive bo bs : in_order bo (in_order bo bs) = bs.
Proof. destruct bo; simpl; auto using rev_involutive. Qed.

Lemma length_in_order bo bs : length (in_order bo bs) = length bs.
Proof. destruct bo; simpl; auto using length_rev. Qed.

Lemma pack_length bo fmt v bs n :
  calcsize fmt = Some n -> pack bo fmt v = Ok bs -> length bs = n.
Proof.
  unfold pack. intros ->. destruct v; try discriminate.
  destruct (_ && _); [|discriminate].
  intros [= <-]. now rewrite length_in_order, length_le_bytes.
Qed.

(** A value in the range of its format is packed, and unpacks to itself. *)
Lemma unpack_pack bo fmt n z :
  calcsize fmt = Some n -> (0 < n)%nat ->
  fmt_min fmt n <= z < fmt_max fmt n ->
  exists bs, pack bo fmt (PInt z) = Ok bs /\ length bs = n /\
             unpack bo fmt bs = Ok (PInt z).
Proof.
  intros Hc Hn Hz. unfold pack, unpack. rewrite Hc.
  assert (Hle : (fmt_min fmt n <=? z) && (z <? fmt_max fmt n) = true)
    by (apply andb_true_iff; split; [apply Z.leb_le|apply Z.ltb_lt]; lia).
  rewrite Hle. eexists; split; [reflexivity|].
  rewrite length_in_order, length_le_bytes. split; [reflexivity|].
  rewrite decide_True by reflexivity.
  rewrite in_order_involutive, le_value_le_bytes.
  do 2 f_equal.
  set (b := 8 * Z.of_nat n) in *.
  assert (Hb : 0 < b) by lia.
  assert (Hp : 2 ^ b = 2 * 2 ^ (b - 1)).
  { rewrite <- Z.pow_succ_r by lia. f_equal; lia. }
  assert (Hpos : 0 < 2 ^ (b - 1)) by (apply Z.pow_pos_nonneg; lia).
  revert Hz. unfold fmt_min, fmt_max. fold b.
  destruct (is_signed fmt); simpl; intros Hz.
  - destruct (Z.leb_spec (2 ^ (b - 1)) (z mod 2 ^ b)) as [H|H].
    + destruct (Z.lt_ge_cases z 0) as [Hneg|Hnn].
      * rewrite <- (Z.mod_add z 1 (2 ^ b)) by lia.
        rewrite Z.mod_small by lia. lia.
      * rewrite Z.mod_small in H by lia. lia.
    + destruct (Z.lt_ge_cases z 0) as [Hneg|Hnn].
      * rewrite <- (Z.mod_add z 1 (2 ^ b)) in H by lia.
        rewrite Z.mod_small in H by lia. lia.
      * rewrite Z.mod_small by lia. lia.
  - apply Z.mod_small. lia.
Qed.

(** ** The fixed part of a record *)

Lemma encode_fields_length bo fields self bs n :
  fields_size fields = Some n ->
  encode_fields bo fields self = Ok bs -> length bs = n.
Proof.
  revert bs n. induction fields as [|[name fmt] rest IH]; intros bs n.
  - simpl. now intros [= <-] [= <-].
  - cbn [fields_size encode_fields].
    destruct (calcsize fmt) as [k|] eqn:Hk; [|discriminate].
    destruct (fields_size rest) as [m|]; [|discriminate].
    intros [= <-].
    destruct (if is_pad name then _ else _) as [v|]; [|discriminate].
    cbn [mbind result_bind].
    destruct (pack bo fmt v) as [b|] eqn:Hp; [|discriminate].
    cbn [mbind result_bind].
    destruct (encode_fields bo rest self) as [t|]; [|discriminate].
    cbn [mbind result_bind]. intros [= <-].
    rewrite length_app, (pack_length _ _ _ _ _ Hk Hp), (IH t m); auto.
Qed.

Lemma unpack_ok bo fmt n bs :
  calcsize fmt = Some n -> length bs = n ->
  exists v, unpack bo fmt bs = Ok v.
Proof.
  intros Hc Hl. unfold unpack. rewrite Hc, decide_True by assumption. eauto.
Qed.

Lemma decode_fields_consumes bo fields n :
  fields_size fields = Some n ->
  forall buf self, (n <= length buf)%nat ->
  exists self', decode_fields bo fields buf self = Ok (self', drop n buf).
Proof.
  revert n. induction fields as [|[name fmt] rest IH]; intros n.
  - simpl. intros [= <-] buf self _. eauto.
  - cbn [fields_size decode_fields].
    destruct (calcsize fmt) as [k|] eqn:Hk; [|discriminate].
    destruct (fields_size rest) as [m|] eqn:Hm; [|discriminate].
    intros [= <-] buf self Hlen.
    rewrite decide_False by lia.
    destruct (unpack_ok bo fmt k (take k buf) Hk) as [v Hv].
    { rewrite length_take. lia. }
    rewrite Hv. cbn [mbind result_bind].
    destruct (IH m eq_refl (drop k buf)
                (if is_pad name then self else <[name:=v]> self)) as [s' Hs'].
    { rewrite length_drop. lia. }
    rewrite Hs', drop_drop. eauto.
Qed.

Lemma decode_fields_short bo fields n :
  fields_size fields = Some n ->
  forall buf self, (length buf < n)%nat ->
  decode_fields bo fields buf self = Raise struct_error.
Proof.
  revert n. induction fields as [|[name fmt] rest IH]; intros n.
  - simpl. intros [= <-] buf self H. lia.
  - cbn [fields_size decode_fields].
    destruct (calcsize fmt) as [k|] eqn:Hk; [|discriminate].
    destruct (fields_size rest) as [m|] eqn:Hm; [|discriminate].
    intros [= <-] buf self Hlen.
    destruct (decide (length buf < k)%nat) as [|Hge]; [reflexivity|].
    destruct (unpack_ok bo fmt k (take k buf) Hk) as [v Hv].
    { rewrite length_take. lia. }
    rewrite Hv. cbn [mbind result_bind].
    apply (IH m eq_refl). rewrite length_drop. lia.
Qed.

Lemma pack_in_range bo fmt n z :
  calcsize fmt = Some n -> (0 < n)%nat ->
  fmt_min fmt n <= z < fmt_max fmt n ->
  exists bs, pack bo fmt (PInt z) = Ok bs.
Proof.
  intros Hc Hn Hz.
  destruct (unpack_pack bo fmt n z Hc Hn Hz) as (bs & H & _). eauto.
Qed.

Lemma header_encodes bo self :
  header_fits self -> exists bs, encode_fields bo ifinfbase.fields self = Ok bs.
Proof.
  intros (f & t & i & fl & c &
          Hf & Rf & Ht & Rt & Hi & Ri & Hfl & Rfl & Hc & Rc).
  unfold ifinfbase.fields. cbn [encode_fields].
  change (is_pad "family") with false. change (is_pad "__align") with true.
  change (is_pad "ifi_type") with false. change (is_pad "index") with false.
  change (is_pad "flags") with false. change (is_pad "change") with false.
  unfold getfield. rewrite Hf, Ht, Hi, Hfl, Hc. cbn [mbind result_bind].
  destruct (pack_in_range bo "B" 1 f eq_refl) as [b1 ->]; [lia|exact Rf|].
  destruct (pack_in_range bo "B" 1 0 eq_refl) as [b2 ->];
    [lia|vm_compute; split; [discriminate|reflexivity]|].
  destruct (pack_in_range bo "H" 2 t eq_refl) as [b3 ->]; [lia|exact Rt|].
  destruct (pack_in_range bo "i" 4 i eq_refl) as [b4 ->]; [lia|exact Ri|].
  destruct (pack_in_range bo "I" 4 fl eq_refl) as [b5 ->]; [lia|exact Rfl|].
  destruct (pack_in_range bo "I" 4 c eq_refl) as [b6 ->]; [lia|exact Rc|].
  cbn [mbind result_bind]. eauto.
Qed.

(** C1, as stated, fails: the declared widths 'B','B','H','i','I','I' are
    1, 1, 2, 4, 4 and 4 bytes, 16 in all and not 12; the sample header is
    encoded into 16 bytes, and a buffer of 12 bytes is refused. *)
Lemma header_length_is_not_12 :
  fields_size ifinfbase.fields <> Some 12%nat /\
  (exists bs,
      encode_fields LittleEndian ifinfbase.fields sample_header = Ok bs /\
      length bs <> 12%nat) /\
  decode_fields LittleEndian ifinfbase.fields
    [x00; x00; x01; x00; x02; x00; x00; x00; x01; x00; x00; x00] ∅
  = Raise struct_error.
Proof.
  split; [vm_compute; discriminate|]. split.
  - eexists. split; [vm_compute; reflexivity|]. simpl. discriminate.
  - vm_compute. reflexivity.
Qed.

(** C1, amended. The fixed header (family, pad, link type, index, flags,
    change mask) declares the widths 'B','B','H','i','I','I', whose sum is
    16.  Hence every header that is encoded is 16 bytes long, a header
    whose fields fit their formats is encoded, decoding a buffer of at
    least 16 bytes succeeds and leaves the buffer from offset 16 on for the
    attributes, and a shorter buffer is refused. *)
Theorem header_length_is_16 :
  fields_size ifinfbase.fields = Some 16%nat /\
  List.map snd ifinfbase.fields = ["B"; "B"; "H"; "i"; "I"; "I"] /\
  (forall bo self bs,
      encode_fields bo ifinfbase.fields self = Ok bs -> length bs = 16%nat) /\
  (forall bo self,
      header_fits self ->
      exists bs, encode_fields bo ifinfbase.fields self = Ok bs /\
                 length bs = 16%nat) /\
  (forall bo buf self,
      (16 <= length buf)%nat ->
      exists self',
        decode_fields bo ifinfbase.fields buf self = Ok (self', drop 16 buf)) /\
  (forall bo buf self,
      (length buf < 16)%nat ->
      decode_fields bo ifinfbase.fields buf self = Raise struct_error).
Proof.
  assert (Hsz : fields_size ifinfbase.fields = Some 16%nat) by reflexivity.
  split; [exact Hsz|]. split; [reflexivity|].
  split; [|split; [|split]].
  - intros bo self bs H. exact (encode_fields_length bo _ self bs _ Hsz H).
  - intros bo self Hfit. destruct (header_encodes bo self Hfit) as [bs Hbs].
    exists bs. split; [exact Hbs|].
    exact (encode_fields_length bo _ self bs _ Hsz Hbs).
  - intros bo buf self. apply decode_fields_consumes, Hsz.
  - intros bo buf self. apply decode_fields_short, Hsz.
Qed.

Lemma header_length_is_16_witness :
  encode_fields LittleEndian ifinfbase.fields sample_header
  = Ok [x00; x00; x01; x00; x02; x00; x00; x00; x01; x00; x00; x00;
        x01; x00; x00; x00] /\
  length [x00; x00; x01; x00; x02; x00; x00; x00; x01; x00; x00; x00;
          x01; x00; x00; x00] = 16%nat.
Proof.
  split; [vm_compute; reflexivity|].
  apply (proj1 (proj2 (proj2 header_length_is_16)) LittleEndian sample_header).
  vm_compute. reflexivity.
Defined.

(** ** Derived flag masks *)

(** C9. The settable mask [IFF_MASK] is 0x3A5, the volatile mask
    [IFF_VOLATILE] is 0x70C5A, and the two have no bit in common. *)
Theorem IFF_MASK_VOLATILE_disjoint :
  IFF_MASK = 0x3A5 /\ IFF_VOLATILE = 0x70C5A /\
  Z.land IFF_MASK IFF_VOLATILE = 0 /\
  (forall i, Z.testbit IFF_MASK i && Z.testbit IFF_VOLATILE i = false).
Proof.
  split; [reflexivity|]. split; [reflexivity|].
  assert (H : Z.land IFF_MASK IFF_VOLATILE = 0) by reflexivity.
  split; [exact H|].
  intros i. rewrite <- Z.land_spec, H. apply Z.bits_0.
Qed.

(** ** Operational states *)

Lemma dict_map_from_lookup_ne {K V} `{Countable K} (pairs : list (K * V))
  (acc : gmap K V) (k : K) :
  k ∉ List.map fst pairs ->
  fold_left (fun d kv => <[fst kv := snd kv]> d) pairs acc !! k = acc !! k.
Proof.
  revert acc. induction pairs as [|[k' v'] rest IH]; intros acc Hk; simpl.
  - reflexivity.
  - simpl in Hk. apply not_elem_of_cons in Hk as [Hne Hk].
    rewrite IH by exact Hk. apply lookup_insert_ne. congruence.
Qed.

Lemma dict_map_lookup_None {K V} `{Countable K} (pairs : list (K * V)) k :
  k ∉ List.map fst pairs -> dict_map pairs !! k = None.
Proof.
  intros Hk. unfold dict_map. now rewrite dict_map_from_lookup_ne.
Qed.

Lemma state_encode_eq bo value self :
  ifinfbase.state.encode bo value self =
  match state_by_name !! value with
  | None => Raise (KeyError (KStr value))
  | Some code => pack bo "B" (PInt code) ≫= fun bs => Ok (bs ++ [])
  end.
Proof.
  unfold ifinfbase.state.encode. destruct (state_by_name !! value); [|easy].
  unfold ifinfbase.state.fields. cbn [encode_fields].
  change (is_pad "value") with false. cbv iota.
  unfold getfield. rewrite lookup_insert_eq. reflexivity.
Qed.

Example state_decode_up :
  ifinfbase.state.decode LittleEndian [x06] = Ok "UP".
Proof. vm_compute. reflexivity. Qed.

Example state_encode_down :
  ifinfbase.state.encode BigEndian "DOWN" ∅ = Ok [x02].
Proof. vm_compute. reflexivity. Qed.

(** C6. The state table has the seven names UNKNOWN, NOTPRESENT, DOWN,
    LOWERLAYERDOWN, TESTING, DORMANT, UP at the indices 0 to 6; the byte
    0x06 decodes to "UP"; the name "DOWN" encodes to the byte 0x02; the name
    at index [i] encodes to the byte [i] and that byte decodes to it; and
    encoding a name that is not in the table, such as "BOGUS", fails with
    the [KeyError] of the lookup by name (the spec's UnknownStateName). *)
Theorem operstate_codes :
  states = ["UNKNOWN"; "NOTPRESENT"; "DOWN"; "LOWERLAYERDOWN"; "TESTING";
            "DORMANT"; "UP"] /\
  (forall bo, ifinfbase.state.decode bo [x06] = Ok "UP") /\
  (forall bo self, ifinfbase.state.encode bo "DOWN" self = Ok [x02]) /\
  (forall bo self (i : nat) name,
      states !! i = Some name ->
      ifinfbase.state.encode bo name self = Ok [byte_of_Z (Z.of_nat i)] /\
      ifinfbase.state.decode bo [byte_of_Z (Z.of_nat i)] = Ok name) /\
  (forall bo self name,
      name ∉ states ->
      ifinfbase.state.encode bo name self = Raise (KeyError (KStr name))) /\
  (forall bo self,
      ifinfbase.state.encode bo "BOGUS" self
      = Raise (KeyError (KStr "BOGUS"))).
Proof.
  split; [reflexivity|].
  split; [intros []; vm_compute; reflexivity|].
  split; [intros [] self; rewrite state_encode_eq; vm_compute; reflexivity|].
  split; [|split].
  - intros bo self i name Hi.
    do 7 (destruct i as [|i];
          [injection Hi as <-; rewrite state_encode_eq;
           destruct bo; vm_compute; split; reflexivity|]).
    discriminate Hi.
  - intros bo self name Hn. rewrite state_encode_eq.
    unfold state_by_name. rewrite dict_map_lookup_None; [reflexivity|].
    intros Hin. apply Hn. vm_compute in Hin. exact Hin.
  - intros bo self. rewrite state_encode_eq. vm_compute. reflexivity.
Qed.

Lemma operstate_codes_witness :
  ("BOGUS" ∉ states) /\
  ifinfbase.state.encode LittleEndian "BOGUS" ∅
  = Raise (KeyError (KStr "BOGUS")).
Proof.
  assert (H : "BOGUS" ∉ states).
  { intros H. apply list_elem_of_In in H. vm_compute in H.
    intuition discriminate. }
  split; [exact H|].
  exact (proj1 (proj2 (proj2 (proj2 (proj2 operstate_codes))))
           LittleEndian ∅ "BOGUS" H).
Defined.

(** ** The link-info resolver *)

Lemma get_attr_absent attrs name :
  name ∉ List.map fst attrs -> ifinfbase.ifinfo.get_attr attrs name = PNone.
Proof.
  induction attrs as [|[n v] rest IH]; simpl; intros H; [reflexivity|].
  apply not_elem_of_cons in H as [Hne H].
  rewrite decide_False by congruence. auto.
Qed.

(** C5. When the KIND attribute decoded in the link-info group is "vlan",
    [info_data] gives the VLAN class for the data attribute ("bond" and
    "veth" select theirs); for any other value of KIND, and when the group
    has no KIND attribute, it gives [hex].  [info_data] is total: no case
    raises. *)
Theorem info_data_by_kind (attrs : list (string * pyval)) :
  let kind := ifinfbase.ifinfo.get_attr attrs "IFLA_INFO_KIND" in
  (kind = PStr "vlan" ->
   ifinfbase.ifinfo.info_data attrs = ifinfbase.ifinfo.vlan_data) /\
  (kind = PStr "bond" ->
   ifinfbase.ifinfo.info_data attrs = ifinfbase.ifinfo.bond_data) /\
  (kind = PStr "veth" ->
   ifinfbase.ifinfo.info_data attrs = ifinfbase.ifinfo.veth_data) /\
  (kind <> PStr "vlan" -> kind <> PStr "bond" -> kind <> PStr "veth" ->
   ifinfbase.ifinfo.info_data attrs = ifinfbase.ifinfo.hex) /\
  ("IFLA_INFO_KIND" ∉ List.map fst attrs ->
   ifinfbase.ifinfo.info_data attrs = ifinfbase.ifinfo.hex).
Proof.
  cbv zeta. unfold ifinfbase.ifinfo.info_data.
  repeat split.
  - intros ->. reflexivity.
  - intros ->. reflexivity.
  - intros ->. reflexivity.
  - intros H1 H2 H3. now rewrite !decide_False by assumption.
  - intros H. rewrite get_attr_absent by exact H. reflexivity.
Qed.

Lemma info_data_by_kind_witness :
  ifinfbase.ifinfo.info_data
    [("IFLA_INFO_KIND", PStr "vlan"); ("IFLA_INFO_DATA", PNone)]
  = ifinfbase.ifinfo.vlan_data /\
  ifinfbase.ifinfo.info_data
    [("IFLA_INFO_KIND", PStr "unknown-driver"); ("IFLA_INFO_DATA", PNone)]
  = ifinfbase.ifinfo.hex /\
  ifinfbase.ifinfo.info_data [("IFLA_INFO_DATA", PNone)]
  = ifinfbase.ifinfo.hex.
Proof.
  split; [|split].
  - apply (proj1 (info_data_by_kind
      [("IFLA_INFO_KIND", PStr "vlan"); ("IFLA_INFO_DATA", PNone)])).
    reflexivity.
  - apply (proj1 (proj2 (proj2 (proj2 (info_data_by_kind
      [("IFLA_INFO_KIND", PStr "unknown-driver"); ("IFLA_INFO_DATA", PNone)])))));
      vm_compute; discriminate.
  - apply (proj2 (proj2 (proj2 (proj2 (info_data_by_kind
      [("IFLA_INFO_DATA", PNone)]))))).
    intros H. apply list_elem_of_In in H. vm_compute in H.
    intuition discriminate.
Defined.

(** ** Insertion-ordered dictionaries *)

Lemma elem_of_map {A B} (f : A -> B) (l : list A) (y : B) :
  y ∈ List.map f l <-> exists x, f x = y /\ x ∈ l.
Proof.
  rewrite list_elem_of_In, in_map_iff.
  split; intros (x & H1 & H2); exists x; split; auto;
    now apply list_elem_of_In.
Qed.

Section DictFacts.

Context {K V : Type} `{EqDecision K}.
Implicit Types (d l : list (K * V)).

Lemma dict_set_fresh k v d :
  k ∉ List.map fst d -> dict_set k v d = d ++ [(k, v)].
Proof.
  induction d as [|[k' v'] d IH]; simpl; intros H; [reflexivity|].
  apply not_elem_of_cons in H as [Hne H].
  rewrite decide_False by exact Hne. f_equal. auto.
Qed.

Lemma dict_from_NoDup l : forall d,
  NoDup (List.map fst l) ->
  (forall k, k ∈ List.map fst l -> k ∉ List.map fst d) ->
  fold_left (fun d kv => dict_set (fst kv) (snd kv) d) l d = d ++ l.
Proof.
  induction l as [|[k v] l IH]; intros d Hnd Hdis; simpl.
  - now rewrite app_nil_r.
  - simpl in Hnd. apply NoDup_cons in Hnd as [Hk Hnd].
    rewrite dict_set_fresh by (apply Hdis; simpl; left).
    rewrite IH; [now rewrite <- app_assoc|exact Hnd|].
    intros k' Hk'. rewrite map_app. simpl.
    rewrite elem_of_app, list_elem_of_singleton.
    intros [H' | ->]; [|contradiction].
    apply (Hdis k'); [simpl; now right|exact H'].
Qed.

(** Building a dictionary from pairs with distinct keys keeps the pairs
    and their order. *)
Lemma dict_NoDup l : NoDup (List.map fst l) -> dict l = l.
Proof.
  intros H. unfold dict. rewrite dict_from_NoDup; auto.
  intros k _. simpl. apply not_elem_of_nil.
Qed.

Lemma dict_get_elem_of k v l :
  NoDup (List.map fst l) -> (k, v) ∈ l -> dict_get k l = Some v.
Proof.
  induction l as [|[k' v'] l IH]; simpl; intros Hnd Hin.
  - now apply elem_of_nil in Hin.
  - apply NoDup_cons in Hnd as [Hk Hnd].
    apply elem_of_cons in Hin as [[= -> ->]|Hin].
    + now rewrite decide_True.
    + rewrite decide_False; [auto|].
      intros ->. apply Hk. apply elem_of_map. now exists (k', v).
Qed.

End DictFacts.

(** ** Bits *)

Lemma land_pow2 k x :
  0 <= k -> Z.land (2 ^ k) x = if Z.testbit x k then 2 ^ k else 0.
Proof.
  intros Hk. apply Z.bits_inj'. intros i Hi.
  rewrite Z.land_spec, Z.pow2_bits_eqb by exact Hk.
  destruct (Z.eqb_spec k i) as [->|Hne].
  - destruct (Z.testbit x i); simpl.
    + now rewrite Z.pow2_bits_true.
    + now rewrite Z.bits_0.
  - simpl. destruct (Z.testbit x k).
    + rewrite Z.pow2_bits_false; auto.
    + now rewrite Z.bits_0.
Qed.

(** The test of [flags2names] on a single-bit flag. *)
Lemma listed_pow2 k mask flags :
  0 <= k ->
  Z.eqb (Z.land (Z.land (2 ^ k) mask) flags) (2 ^ k)
  = Z.testbit mask k && Z.testbit flags k.
Proof.
  intros Hk. assert (Hp : 0 < 2 ^ k) by (apply Z.pow_pos_nonneg; lia).
  rewrite (land_pow2 k mask Hk). destruct (Z.testbit mask k); cbn [andb].
  - rewrite (land_pow2 k flags Hk). destruct (Z.testbit flags k).
    + apply Z.eqb_refl.
    + apply Z.eqb_neq. lia.
  - rewrite Z.land_0_l. apply Z.eqb_neq. lia.
Qed.

Lemma testbit_orlist zs k :
  Forall single_bit zs -> 0 <= k ->
  Z.testbit (orlist zs) k = true <-> 2 ^ k ∈ zs.
Proof.
  intros Hzs Hk. induction Hzs as [|z zs (j & Hj & ->) _ IH]; simpl.
  - rewrite Z.bits_0, elem_of_nil. intuition discriminate.
  - rewrite Z.lor_spec, orb_true_iff, IH, Z.pow2_bits_eqb by exact Hj.
    rewrite Z.eqb_eq, elem_of_cons. split.
    + intros [->|H]; auto.
    + intros [H|H]; auto. left. apply (Z.pow_inj_r 2); lia.
Qed.

(** ** Lists *)

Lemma elem_of_lfilter {A} (p : A -> bool) (l : list A) (x : A) :
  x ∈ List.filter p l <-> x ∈ l /\ p x = true.
Proof. now rewrite !list_elem_of_In, filter_In. Qed.

Lemma NoDup_lfilter {A} (p : A -> bool) (l : list A) :
  NoDup l -> NoDup (List.filter p l).
Proof. rewrite !NoDup_ListNoDup. apply List.NoDup_filter. Qed.

Lemma NoDup_map_inv {A B} (f : A -> B) (l : list A) :
  NoDup (List.map f l) -> NoDup l.
Proof. rewrite !NoDup_ListNoDup. apply List.NoDup_map_inv. Qed.

Lemma NoDup_snd_inj {A B} (l : list (A * B)) a b z :
  NoDup (List.map snd l) -> (a, z) ∈ l -> (b, z) ∈ l -> a = b.
Proof.
  induction l as [|[a' z'] l IH]; simpl; intros Hnd Ha Hb.
  - now apply elem_of_nil in Ha.
  - apply NoDup_cons in Hnd as [Hz Hnd].
    apply elem_of_cons in Ha as [Ha|Ha]; apply elem_of_cons in Hb as [Hb|Hb].
    + congruence.
    + exfalso. apply Hz, elem_of_map. exists (b, z). split; [|exact Hb].
      simpl. congruence.
    + exfalso. apply Hz, elem_of_map. exists (a, z). split; [|exact Ha].
      simpl. congruence.
    + auto.
Qed.

Lemma map_snd_filter_map {A B C} (p : B * C -> bool) (q : C -> bool)
  (g : A -> B * C) (h : A -> C) (l : list A) :
  (forall x, x ∈ l -> snd (g x) = h x /\ p (g x) = q (h x)) ->
  List.map snd (List.filter p (List.map g l))
  = List.filter q (List.map h l).
Proof.
  induction l as [|x l IH]; intros H; simpl; [reflexivity|].
  destruct (H x) as [Hs Hp]; [left|].
  rewrite Hp. destruct (q (h x)); simpl; rewrite IH, ?Hs; auto;
    intros y Hy; apply H; now right.
Qed.

(** ** The flag catalogue *)

Lemma IFF_values_NoDup : NoDup (List.map snd IFF_globals).
Proof. compute_done. Qed.

Lemma IFF_values_single_bit : Forall single_bit (List.map snd IFF_globals).
Proof.
  apply Forall_forall. intros z Hz.
  exists (Z.log2 z). revert z Hz. apply Forall_forall. compute_done.
Qed.

Section CatalogueFacts.

Variable symbolic : string -> string.
Hypothesis symbolic_NoDup : NoDup (catalogue_order symbolic).

Lemma IFF_NAMES_eq :
  IFF_NAMES symbolic
  = List.map (fun iv => (symbolic (fst iv), snd iv)) IFF_globals.
Proof.
  unfold IFF_NAMES, map_namespace. cbn [fst].
  change (List.filter _ IFF_globals) with IFF_globals.
  apply dict_NoDup. rewrite List.map_map. cbn [fst].
  unfold catalogue_order, IFF_identifiers in symbolic_NoDup.
  now rewrite List.map_map in symbolic_NoDup.
Qed.

Lemma IFF_VALUES_eq :
  IFF_VALUES symbolic
  = List.map (fun iv => (snd iv, symbolic (fst iv))) IFF_globals.
Proof. vm_compute. reflexivity. Qed.

Lemma IFF_NAMES_keys :
  List.map fst (IFF_NAMES symbolic) = catalogue_order symbolic.
Proof.
  rewrite IFF_NAMES_eq, List.map_map. cbn [fst].
  unfold catalogue_order, IFF_identifiers. now rewrite List.map_map.
Qed.

Lemma catalogue_order_eq :
  List.map snd (IFF_VALUES symbolic) = catalogue_order symbolic.
Proof.
  rewrite IFF_VALUES_eq, List.map_map. cbn [snd].
  unfold catalogue_order, IFF_identifiers. now rewrite List.map_map.
Qed.

Lemma IFF_NAMES_NoDup : NoDup (List.map fst (IFF_NAMES symbolic)).
Proof. rewrite IFF_NAMES_keys. exact symbolic_NoDup. Qed.

Lemma flag_value_global i z :
  (i, z) ∈ IFF_globals -> flag_value symbolic (symbolic i) = z.
Proof.
  intros H. unfold flag_value.
  rewrite (dict_get_elem_of (symbolic i) z); [reflexivity| |].
  - exact IFF_NAMES_NoDup.
  - rewrite IFF_NAMES_eq. apply elem_of_map. now exists (i, z).
Qed.

Lemma catalogue_name_inv name :
  name ∈ List.map fst (IFF_NAMES symbolic) ->
  exists i z, (i, z) ∈ IFF_globals /\ name = symbolic i.
Proof.
  rewrite IFF_NAMES_eq, List.map_map. cbn [fst].
  intros ([i z] & <- & H)%elem_of_map. now exists i, z.
Qed.

Lemma getitem_flag_value name :
  name ∈ List.map fst (IFF_NAMES symbolic) ->
  getitem (IFF_NAMES symbolic) name = Ok (flag_value symbolic name).
Proof.
  intros (i & z & Hin & ->)%catalogue_name_inv.
  rewrite (flag_value_global i z Hin). unfold getitem.
  rewrite (dict_get_elem_of (symbolic i) z); [reflexivity| |].
  - exact IFF_NAMES_NoDup.
  - rewrite IFF_NAMES_eq. apply elem_of_map. now exists (i, z).
Qed.

Lemma flag_value_single_bit name :
  name ∈ List.map fst (IFF_NAMES symbolic) ->
  single_bit (flag_value symbolic name).
Proof.
  intros (i & z & Hin & ->)%catalogue_name_inv.
  rewrite (flag_value_global i z Hin).
  pose proof IFF_values_single_bit as H.
  rewrite Forall_forall in H. apply H, elem_of_map. now exists (i, z).
Qed.

Hypothesis names_plain : Forall plain (catalogue_order symbolic).

Lemma catalogue_name_plain name :
  name ∈ List.map fst (IFF_NAMES symbolic) -> plain name.
Proof.
  rewrite IFF_NAMES_keys. revert name. now apply Forall_forall.
Qed.

Lemma flag_name_base flag :
  flag_name symbolic flag ->
  base_name flag ∈ List.map fst (IFF_NAMES symbolic).
Proof.
  intros (name & Hn & [->| ->]).
  - destruct (catalogue_name_plain name Hn) as [Hne Hneg].
    destruct name as [|c tl]; [contradiction|].
    cbn [is_negated base_name] in Hneg |- *. now rewrite Hneg.
  - exact Hn.
Qed.

Lemma flag_name_plain flag :
  flag_name symbolic flag -> is_negated flag = false ->
  flag ∈ List.map fst (IFF_NAMES symbolic) /\ base_name flag = flag.
Proof.
  intros (name & Hn & [->| ->]) Hneg; [|discriminate Hneg].
  split; [exact Hn|]. destruct name as [|c tl]; [reflexivity|].
  cbn [is_negated base_name] in Hneg |- *. now rewrite Hneg.
Qed.

(** The loop of [names2flags] on a list of flag names: every name that
    is not negated is or-ed into the value, every base name into the
    mask. *)
Lemma names2flags_from_spec flags : forall ret mask,
  Forall (flag_name symbolic) flags ->
  names2flags_from symbolic flags ret mask
  = Ok (Z.lor ret
          (orlist (List.map (flag_value symbolic) (non_negated flags))),
        Z.lor mask
          (orlist (List.map (flag_value symbolic)
                     (List.map base_name flags)))).
Proof.
  induction flags as [|flag rest IH]; intros ret mask Hall.
  - simpl. now rewrite !Z.lor_0_r.
  - apply Forall_cons in Hall as [Hflag Hrest].
    pose proof (flag_name_base flag Hflag) as Hbase.
    destruct (is_negated flag) eqn:Hneg.
    + destruct flag as [|c tl]; [discriminate Hneg|].
      cbn [is_negated base_name] in Hneg, Hbase. rewrite Hneg in Hbase.
      cbn [names2flags_from]. rewrite Hneg.
      rewrite (getitem_flag_value tl Hbase). cbn [mbind result_bind].
      rewrite IH by exact Hrest.
      unfold non_negated. cbn [List.filter is_negated base_name List.map].
      rewrite Hneg. cbn [negb orlist fold_right].
      now rewrite Z.lor_assoc.
    + destruct (flag_name_plain flag Hflag Hneg) as [Hin Hb].
      destruct flag as [|c tl]; [now destruct (catalogue_name_plain _ Hin)|].
      cbn [names2flags_from]. cbn [is_negated] in Hneg. rewrite Hneg.
      rewrite (getitem_flag_value _ Hin). cbn [mbind result_bind].
      rewrite IH by exact Hrest.
      unfold non_negated. cbn [List.filter is_negated List.map].
      rewrite Hneg, Hb. cbn [negb List.map orlist fold_right].
      now rewrite !Z.lor_assoc.
Qed.

End CatalogueFacts.

Lemma getitem_global symbolic i z :
  NoDup (catalogue_order symbolic) -> (i, z) ∈ IFF_globals ->
  getitem (IFF_NAMES symbolic) (symbolic i) = Ok z.
Proof.
  intros Hnd Hin. rewrite (getitem_flag_value symbolic Hnd).
  - f_equal. now apply flag_value_global.
  - rewrite (IFF_NAMES_keys symbolic Hnd). apply elem_of_map. exists i.
    split; [reflexivity|]. apply elem_of_map. now exists (i, z).
Qed.

Lemma flags2names_elem_of symbolic value mask name :
  name ∈ flags2names symbolic value mask <->
  exists bit, (bit, name) ∈ IFF_VALUES symbolic /\
              Z.land (Z.land bit mask) value = bit.
Proof.
  unfold flags2names. rewrite elem_of_map. split.
  - intros ([bit n] & Hn & [Hin Hc]%elem_of_lfilter). simpl in Hn, Hc.
    subst n. exists bit. split; [exact Hin|now apply Z.eqb_eq].
  - intros (bit & Hin & Hc). exists (bit, name). split; [reflexivity|].
    apply elem_of_lfilter. split; [exact Hin|now apply Z.eqb_eq].
Qed.

(** C4, as stated, fails: the catalogue has no name "up", its names are
    the identifiers of the constants.  [names2flags] of ["up", "!promisc"]
    raises the [KeyError] of the lookup of "up", and [flags2names] of
    (0x1, 0x101) is ["IFF_UP"], not ["up"]. *)
Lemma short_names_not_in_catalogue :
  names2flags id ["up"; "!promisc"] = Raise (KeyError (KStr "up")) /\
  flags2names id 0x1 0x101 = ["IFF_UP"] /\
  ~ (names2flags id ["up"; "!promisc"] = Ok (0x1, 0x101) /\
     flags2names id 0x1 0x101 = ["up"]).
Proof.
  assert (H : names2flags id ["up"; "!promisc"]
              = Raise (KeyError (KStr "up"))) by (vm_compute; reflexivity).
  split; [exact H|]. split; [vm_compute; reflexivity|].
  intros [H' _]. rewrite H in H'. discriminate H'.
Qed.

(** C4, amended. With the names of the catalogue, "IFF_UP" for bit 0x1 and
    "IFF_PROMISC" for bit 0x100: [names2flags] of
    ["IFF_UP", "!IFF_PROMISC"] is the pair (0x1, 0x101) and [flags2names]
    of (0x1, 0x101) is ["IFF_UP"].  The negated name gives its bit to the
    mask only, and [flags2names] lists a name exactly when its bit is set
    in [value & mask]. *)
Theorem up_not_promisc :
  names2flags id ["IFF_UP"; "!IFF_PROMISC"] = Ok (0x1, 0x101) /\
  flags2names id 0x1 0x101 = ["IFF_UP"] /\
  names2flags id ["!IFF_PROMISC"] = Ok (0, 0x100) /\
  (forall value mask name,
      name ∈ flags2names id value mask <->
      exists bit, (bit, name) ∈ IFF_VALUES id /\
                  Z.land (Z.land bit mask) value = bit).
Proof.
  split; [vm_compute; reflexivity|]. split; [vm_compute; reflexivity|].
  split; [vm_compute; reflexivity|].
  intros value mask name. apply flags2names_elem_of.
Qed.

(** C2. Over a catalogue whose names are distinct, not empty and do not
    start with "!": for a list of flag names, each a name of the catalogue
    optionally prefixed with "!", and no base name twice, [names2flags]
    gives a pair (value, mask), and [flags2names] of that pair is the list
    of the non-negated names of the list, in the catalogue's declaration
    order. *)
Theorem flags_round_trip (symbolic : string -> string) (flags : list string) :
  NoDup (catalogue_order symbolic) ->
  Forall plain (catalogue_order symbolic) ->
  Forall (flag_name symbolic) flags ->
  NoDup (List.map base_name flags) ->
  exists value mask,
    names2flags symbolic flags = Ok (value, mask) /\
    flags2names symbolic value mask
    = List.filter (fun name => bool_decide (name ∈ non_negated flags))
        (catalogue_order symbolic) /\
    flags2names symbolic value mask ≡ₚ non_negated flags.
Proof.
  intros Hnd Hplain Hflags Hbases.
  rewrite Forall_forall in Hflags.
  set (fv := flag_value symbolic).
  set (NN := non_negated flags). set (BB := List.map base_name flags).
  assert (HNN : forall f, f ∈ NN ->
            f ∈ flags /\ f ∈ List.map fst (IFF_NAMES symbolic) /\
            base_name f = f).
  { intros f [Hf Hneg]%elem_of_lfilter. apply negb_true_iff in Hneg.
    split; [exact Hf|]. apply flag_name_plain; auto. }
  assert (SNN : Forall single_bit (List.map fv NN)).
  { apply Forall_forall. intros z (f & <- & Hf)%elem_of_map.
    apply flag_value_single_bit; [exact Hnd|]. now apply HNN. }
  assert (SBB : Forall single_bit (List.map fv BB)).
  { apply Forall_forall.
    intros z (b & <- & (f & <- & Hf)%elem_of_map)%elem_of_map.
    apply flag_value_single_bit; [exact Hnd|].
    apply flag_name_base; auto. }
  assert (K1 : forall i z, (i, z) ∈ IFF_globals ->
            z ∈ List.map fv NN <-> symbolic i ∈ NN).
  { intros i z Hin. split.
    - intros (f & Hfz & Hf)%elem_of_map.
      destruct (HNN f Hf) as (_ & Hname & _).
      destruct (catalogue_name_inv symbolic Hnd f Hname)
        as (i' & z' & Hin' & ->).
      unfold fv in Hfz.
      rewrite (flag_value_global symbolic Hnd i' z' Hin') in Hfz.
      subst z'. now rewrite (NoDup_snd_inj _ i i' z IFF_values_NoDup Hin Hin').
    - intros Hf. apply elem_of_map. exists (symbolic i). split; [|exact Hf].
      now apply flag_value_global. }
  assert (K2 : forall i z, (i, z) ∈ IFF_globals ->
            symbolic i ∈ NN -> z ∈ List.map fv BB).
  { intros i z Hin Hf. destruct (HNN _ Hf) as (Hfl & _ & Hb).
    apply elem_of_map. exists (symbolic i).
    split; [now apply flag_value_global|].
    apply elem_of_map. now exists (symbolic i). }
  exists (orlist (List.map fv NN)), (orlist (List.map fv BB)).
  assert (Hfilter :
    flags2names symbolic (orlist (List.map fv NN)) (orlist (List.map fv BB))
    = List.filter (fun name => bool_decide (name ∈ NN))
        (catalogue_order symbolic)).
  { unfold flags2names. rewrite IFF_VALUES_eq.
    unfold catalogue_order, IFF_identifiers. rewrite List.map_map.
    apply map_snd_filter_map. intros [i z] Hin. cbn [fst snd].
    split; [reflexivity|].
    assert (Hz : single_bit z).
    { pose proof IFF_values_single_bit as H. rewrite Forall_forall in H.
      apply H, elem_of_map. now exists (i, z). }
    destruct Hz as (k & Hk & ->).
    rewrite listed_pow2 by exact Hk.
    apply eq_true_iff_eq.
    rewrite andb_true_iff, !testbit_orlist, bool_decide_eq_true by assumption.
    rewrite (K1 i (2 ^ k) Hin). split; [tauto|].
    intros H. split; [|exact H]. now apply (K2 i). }
  split; [|split].
  - unfold names2flags.
    rewrite names2flags_from_spec;
      [now rewrite !Z.lor_0_l|exact Hnd|exact Hplain|now apply Forall_forall].
  - exact Hfilter.
  - rewrite Hfilter. apply NoDup_Permutation.
    + now apply NoDup_lfilter.
    + apply NoDup_lfilter. now apply (NoDup_map_inv base_name).
    + intros x. rewrite elem_of_lfilter, bool_decide_eq_true. split; [tauto|].
      intros Hx. split; [|exact Hx].
      rewrite <- (IFF_NAMES_keys symbolic Hnd). now apply HNN.
Qed.

Lemma flags_round_trip_witness :
  exists value mask,
    names2flags id ["IFF_RUNNING"; "!IFF_PROMISC"; "IFF_UP"]
    = Ok (value, mask) /\
    flags2names id value mask
    = List.filter
        (fun name => bool_decide
           (name ∈ non_negated ["IFF_RUNNING"; "!IFF_PROMISC"; "IFF_UP"]))
        (catalogue_order id) /\
    flags2names id value mask
    ≡ₚ non_negated ["IFF_RUNNING"; "!IFF_PROMISC"; "IFF_UP"].
Proof.
  apply (flags_round_trip id ["IFF_RUNNING"; "!IFF_PROMISC"; "IFF_UP"]).
  - compute_done.
  - compute_done.
  - repeat apply Forall_cons_2; [| | |apply Forall_nil_2].
    + exists "IFF_RUNNING". split; [compute_done|now left].
    + exists "IFF_PROMISC". split; [compute_done|now right].
    + exists "IFF_UP". split; [compute_done|now left].
  - compute_done.
Defined.

Example catalogue_run :
  names2flags id ["IFF_RUNNING"; "!IFF_PROMISC"; "IFF_UP"] = Ok (0x41, 0x141)
  /\ flags2names id 0x41 0x141 = ["IFF_UP"; "IFF_RUNNING"].
Proof. split; vm_compute; reflexivity. Qed.

(** ** Counter blocks *)

Section Counters.

Variable bo : byteorder.
Variable fmt : string.
Variable width : nat.
Hypothesis fmt_width : calcsize fmt = Some width.
Hypothesis width_pos : (0 < width)%nat.
Hypothesis fmt_unsigned : is_signed fmt = false.
Variable m : gmap string Z.

Lemma stored_lookup names : forall acc k,
  stored m acc names !! k
  = if decide (k ∈ names) then Some (PInt (default 0 (m !! k)))
    else acc !! k.
Proof.
  induction names as [|name rest IH]; intros acc k;
    unfold stored; cbn [fold_left].
  - rewrite decide_False by apply not_elem_of_nil. reflexivity.
  - unfold stored in IH. rewrite IH.
    destruct (decide (k ∈ rest)) as [Hin|Hnin].
    + rewrite decide_True by now right. reflexivity.
    + destruct (decide (k = name)) as [->|Hne].
      * rewrite decide_True by now left. apply lookup_insert_eq.
      * rewrite decide_False by (intros [?|?]%elem_of_cons; contradiction).
        now apply lookup_insert_ne.
Qed.

Lemma counters_codec names :
  Forall (fun name => is_pad name = false) names ->
  (forall name, name ∈ names ->
     exists z, m !! name = Some z /\ 0 <= z < 2 ^ (8 * Z.of_nat width)) ->
  exists bs,
    encode_fields bo (List.map (fun i => (i, fmt)) names) (PInt <$> m)
    = Ok bs /\
    length bs = (width * length names)%nat /\
    forall rest acc,
      decode_fields bo (List.map (fun i => (i, fmt)) names) (bs ++ rest) acc
      = Ok (stored m acc names, rest).
Proof.
  induction names as [|name names IH]; intros Hpad Hm.
  - exists []. simpl. split; [reflexivity|]. split; [lia|]. reflexivity.
  - apply Forall_cons in Hpad as [Hp Hpad].
    destruct (Hm name) as (z & Hz & Rz); [now left|].
    destruct IH as (tl & Htl & Ltl & Dtl);
      [exact Hpad|intros n' Hn'; apply Hm; now right|].
    destruct (unpack_pack bo fmt width z fmt_width width_pos)
      as (b & Hb & Lb & Ub).
    { unfold fmt_min, fmt_max. rewrite fmt_unsigned. exact Rz. }
    exists (b ++ tl). cbn [List.map encode_fields decode_fields].
    rewrite Hp. unfold getfield. rewrite lookup_fmap, Hz.
    cbn [fmap option_fmap option_map mbind result_bind].
    rewrite Hb. cbn [mbind result_bind]. rewrite Htl.
    cbn [mbind result_bind].
    split; [reflexivity|].
    split; [rewrite length_app; cbn [length]; lia|].
    intros rest acc. rewrite fmt_width, <- app_assoc.
    rewrite decide_False by (rewrite length_app; lia).
    rewrite take_app_length' by (symmetry; exact Lb). rewrite Ub.
    cbn [mbind result_bind].
    rewrite drop_app_length' by (symmetry; exact Lb).
    rewrite Dtl. simpl. now rewrite Hz.
Qed.

(** The mapping read back from a complete mapping is the mapping. *)
Lemma stored_complete names :
  dom m = list_to_set names -> stored m ∅ names = PInt <$> m.
Proof.
  intros Hdom. apply map_eq. intros k.
  rewrite stored_lookup, lookup_fmap, lookup_empty.
  destruct (decide (k ∈ names)) as [Hin|Hnin].
  - assert (Hk : k ∈ dom m) by (rewrite Hdom; now apply elem_of_list_to_set).
    apply elem_of_dom in Hk as [z Hz]. now rewrite Hz.
  - assert (Hk : k ∉ dom m)
      by (rewrite Hdom; now rewrite elem_of_list_to_set).
    apply not_elem_of_dom in Hk. now rewrite Hk.
Qed.

End Counters.

Lemma stats_names_not_pad :
  Forall (fun name => is_pad name = false) stats_names.
Proof. compute_done. Qed.

Lemma counters_round_trip_at bo fmt width (m : gmap string Z) :
  calcsize fmt = Some width -> (0 < width)%nat -> is_signed fmt = false ->
  dom m = list_to_set stats_names ->
  map_Forall (fun _ z => 0 <= z < 2 ^ (8 * Z.of_nat width)) m ->
  exists bs,
    encode_fields bo (List.map (fun i => (i, fmt)) stats_names) (PInt <$> m)
    = Ok bs /\
    length bs = (width * 23)%nat /\
    decode_fields bo (List.map (fun i => (i, fmt)) stats_names) bs ∅
    = Ok (PInt <$> m, []).
Proof.
  intros Hc Hw Hs Hdom Hrange.
  destruct (counters_codec bo fmt width Hc Hw Hs m stats_names
              stats_names_not_pad) as (bs & He & Hl & Hd).
  - intros name Hin.
    assert (Hk : name ∈ dom m)
      by (rewrite Hdom; now apply elem_of_list_to_set).
    apply elem_of_dom in Hk as [z Hz]. exists z. split; [exact Hz|].
    exact (Hrange name z Hz).
  - exists bs. split; [exact He|]. split; [exact Hl|].
    specialize (Hd [] ∅). rewrite app_nil_r in Hd. rewrite Hd.
    now rewrite (stored_complete m stats_names Hdom).
Qed.

(** C7. The 32-bit and the 64-bit counter block declare the same 23 names
    in the same order.  A complete mapping of these names to unsigned
    integers that fit the width is encoded (into 92, respectively 184
    bytes), and decoding these bytes at the same width gives the mapping
    back. *)
Theorem counters_round_trip (bo : byteorder) (m : gmap string Z) :
  dom m = list_to_set stats_names ->
  (length stats_names = 23%nat /\
   List.map fst ifinfbase.ifstats.fields = stats_names /\
   List.map fst ifinfbase.ifstats64.fields = stats_names) /\
  (map_Forall (fun _ z => 0 <= z < 2 ^ 32) m ->
   exists bs,
     encode_fields bo ifinfbase.ifstats.fields (PInt <$> m) = Ok bs /\
     length bs = 92%nat /\
     decode_fields bo ifinfbase.ifstats.fields bs ∅ = Ok (PInt <$> m, [])) /\
  (map_Forall (fun _ z => 0 <= z < 2 ^ 64) m ->
   exists bs,
     encode_fields bo ifinfbase.ifstats64.fields (PInt <$> m) = Ok bs /\
     length bs = 184%nat /\
     decode_fields bo ifinfbase.ifstats64.fields bs ∅ = Ok (PInt <$> m, [])).
Proof.
  intros Hdom. split; [|split].
  - split; [reflexivity|]. split; vm_compute; reflexivity.
  - intros Hr.
    exact (counters_round_trip_at bo "I" 4 m eq_refl ltac:(lia) eq_refl
             Hdom Hr).
  - intros Hr.
    exact (counters_round_trip_at bo "Q" 8 m eq_refl ltac:(lia) eq_refl
             Hdom Hr).
Qed.

Lemma sample_counters_dom : dom sample_counters = list_to_set stats_names.
Proof. unfold sample_counters. now rewrite dom_list_to_map_L. Qed.

Lemma sample_counters_range :
  map_Forall (fun _ z => 0 <= z < 2 ^ 32) sample_counters.
Proof.
  unfold sample_counters. apply map_Forall_to_list.
  rewrite map_to_list_to_map by compute_done.
  compute_done.
Qed.

Lemma counters_round_trip_witness :
  exists bs,
    encode_fields BigEndian ifinfbase.ifstats.fields (PInt <$> sample_counters)
    = Ok bs /\
    length bs = 92%nat /\
    decode_fields BigEndian ifinfbase.ifstats.fields bs ∅
    = Ok (PInt <$> sample_counters, []).
Proof.
  exact (proj1 (proj2 (counters_round_trip BigEndian sample_counters
                         sample_counters_dom)) sample_counters_range).
Defined.

(** ** ifinfbase.encode *)




(** ** The netns_fd attribute *)

Section NetnsFacts.

Import ifinfbase.netns_fd.

Lemma close_ok_spec s :
  close_ok s -> close s = (Ok tt, closed s).
Proof.
  unfold close, close_ok, closed, os_close, log, ret.
  destruct (netns_fd s) as [fd|] eqn:E; simpl; [|reflexivity].
  intros H. now rewrite decide_True.
Qed.

Lemma close_stale_spec s fd :
  netns_fd s = Some fd -> fd ∉ open_fds s ->
  close s = (Raise (OSError "EBADF"),
             State (value s) (netns_fd s) (items s) (open_fds s) (files s)
               (calls s ++ [sys_close fd])).
Proof.
  unfold close, os_close, log. intros -> H. simpl.
  now rewrite decide_False.
Qed.

Lemma store_value_Fd s n :
  value s = Fd n ->
  store_value s
  = (Ok tt, State (value s) (netns_fd s) (<["value" := PInt n]> (items s))
              (open_fds s) (files s) (calls s)).
Proof. destruct s; simpl. intros ->. reflexivity. Qed.

Lemma store_value_Name s name :
  value s = Name name -> netns_path name ∈ files s ->
  store_value s = (Ok tt, opened name s).
Proof.
  destruct s; simpl. intros -> H.
  unfold store_value, opened, mbind, M_bind, bind, os_open, log,
    set_netns_fd, setitem.
  fold (netns_path name). simpl. now rewrite decide_True.
Qed.

Lemma store_value_Name_missing s name :
  value s = Name name -> netns_path name ∉ files s ->
  store_value s
  = (Raise (OSError "ENOENT"),
     State (value s) (netns_fd s) (items s) (open_fds s) (files s)
       (calls s ++ [sys_open (netns_path name)])).
Proof.
  destruct s; simpl. intros -> H.
  unfold store_value, mbind, M_bind, bind, os_open, log.
  fold (netns_path name). simpl. now rewrite decide_False.
Qed.

Lemma encode_unfold nla_encode s :
  encode nla_encode s =
  match close s with
  | (Ok _, s1) =>
      match store_value s1 with
      | (Ok _, s2) => (nla_encode fields (items s2), s2)
      | (Raise e, s2) => (Raise e, s2)
      end
  | (Raise e, s1) => (Raise e, s1)
  end.
Proof. reflexivity. Qed.

Lemma value_closed s : value (closed s) = value s.
Proof. unfold closed. destruct (netns_fd s) eqn:E; simpl; auto. Qed.

Lemma files_closed s : files (closed s) = files s.
Proof. unfold closed. destruct (netns_fd s) eqn:E; simpl; auto. Qed.

Lemma items_closed s : items (closed s) = items s.
Proof. unfold closed. destruct (netns_fd s) eqn:E; simpl; auto. Qed.

Lemma netns_fd_closed s : netns_fd (closed s) = netns_fd s.
Proof. unfold closed. destruct (netns_fd s) eqn:E; simpl; auto. Qed.

Lemma calls_closed s : calls (closed s) = calls s ++ close_calls s.
Proof.
  unfold closed, close_calls. destruct (netns_fd s); simpl; auto.
  now rewrite app_nil_r.
Qed.

Lemma open_fds_closed s : open_fds (closed s) ⊆ open_fds s.
Proof.
  unfold closed. destruct (netns_fd s); simpl; [|reflexivity].
  intros x Hx. apply elem_of_difference in Hx. tauto.
Qed.

Lemma encode_calls_spec nla_encode s :
  calls (snd (encode nla_encode s)) = calls s ++ encode_calls s.
Proof.
  rewrite encode_unfold. unfold encode_calls.
  destruct (decide (close_ok s)) as [Hok|Hbad].
  - rewrite (close_ok_spec s Hok).
    destruct (value s) as [n|name] eqn:Hv.
    + rewrite (store_value_Fd (closed s) n) by now rewrite value_closed.
      simpl. now rewrite calls_closed, app_nil_r.
    + destruct (decide (netns_path name ∈ files s)) as [Hin|Hnin].
      * rewrite (store_value_Name (closed s) name)
          by (rewrite ?value_closed, ?files_closed; assumption).
        simpl. now rewrite calls_closed, app_assoc.
      * rewrite (store_value_Name_missing (closed s) name)
          by (rewrite ?value_closed, ?files_closed; assumption).
        simpl. now rewrite calls_closed, app_assoc.
  - unfold close_ok in Hbad. unfold close_calls.
    destruct (netns_fd s) as [fd|] eqn:Hfd; [|now destruct Hbad].
    rewrite (close_stale_spec s fd Hfd Hbad). reflexivity.
Qed.

(** X18. With an integer as the configured value, [encode] makes no
    [open] call and opens no descriptor, and, when the [close] at its
    start goes through, stores that integer under 'value' and hands the
    attribute to the base encoder with it.  An [open] is among the calls
    of an [encode] only when the configured value is a name, and then it
    is the [open] of that name under [netns_run_dir]. *)
Theorem encode_literal_handle
  (nla_encode : list (string * string) -> gmap string pyval ->
                result (list byte)) (s : state) :
  calls (snd (encode nla_encode s)) = calls s ++ encode_calls s /\
  (forall n,
      value s = Fd n ->
      (forall path, sys_open path ∉ encode_calls s) /\
      open_fds (snd (encode nla_encode s)) ⊆ open_fds s /\
      (close_ok s ->
       items (snd (encode nla_encode s)) = <["value" := PInt n]> (items s) /\
       fst (encode nla_encode s)
       = nla_encode fields (<["value" := PInt n]> (items s)))) /\
  (forall path,
      sys_open path ∈ encode_calls s ->
      exists name,
        value s = Name name /\ path = netns_run_dir +:+ "/" +:+ name).
Proof.
  split; [apply encode_calls_spec|]. split.
  - intros n Hv. split; [|split].
    + intros path. unfold encode_calls, close_calls. rewrite Hv.
      destruct (netns_fd s), (decide (close_ok s)); simpl;
        rewrite ?elem_of_cons, ?elem_of_nil; intros H;
        repeat destruct H as [H|H]; try discriminate H; auto.
    + rewrite encode_unfold.
      destruct (decide (close_ok s)) as [Hok|Hbad].
      * rewrite (close_ok_spec s Hok).
        rewrite (store_value_Fd (closed s) n) by now rewrite value_closed.
        simpl. apply open_fds_closed.
      * unfold close_ok in Hbad.
        destruct (netns_fd s) as [fd|] eqn:Hfd; [|now destruct Hbad].
        rewrite (close_stale_spec s fd Hfd Hbad). simpl. reflexivity.
    + intros Hok. rewrite encode_unfold, (close_ok_spec s Hok).
      rewrite (store_value_Fd (closed s) n) by now rewrite value_closed.
      simpl. rewrite items_closed. split; reflexivity.
  - intros path. unfold encode_calls, close_calls.
    rewrite elem_of_app. intros [H|H].
    + destruct (netns_fd s); [apply list_elem_of_singleton in H|
                              apply elem_of_nil in H]; now try discriminate H.
    + destruct (decide (close_ok s)); [|now apply elem_of_nil in H].
      destruct (value s) as [n|name]; [now apply elem_of_nil in H|].
      apply list_elem_of_singleton in H. injection H as ->.
      now exists name.
Qed.

Lemma encode_literal_handle_witness :
  (forall path, sys_open path ∉ encode_calls literal_state) /\
  fst (encode (encode_fields LittleEndian) literal_state)
  = Ok [x07; x00; x00; x00].
Proof.
  destruct (proj1 (proj2 (encode_literal_handle (encode_fields LittleEndian)
                            literal_state)) 7 eq_refl) as (Hno & _ & Hok).
  split; [exact Hno|].
  destruct (Hok I) as [_ ->]. reflexivity.
Defined.

(** C8. The code at the failing input: one attribute encoded with the
    name "blue", then with the descriptor 7, then with the descriptor 9.
    The first [encode] opens the descriptor 3 and records it in
    [netns_fd]; the second closes it, without resetting [netns_fd], and
    stores 7; the third calls [os.close] on the closed descriptor 3 in its
    [self.close()] and raises [OSError]: the integer 9 is not stored (the
    attribute still holds 7) and the base encoder is not reached,
    whatever it is. *)
Theorem encode_literal_after_name
  (nla_encode : list (string * string) -> gmap string pyval ->
                result (list byte)) :
  let s1 := snd (encode nla_encode named_state) in
  let s2 := snd (encode nla_encode (with_value (Fd 7) s1)) in
  let s3 := snd (encode nla_encode (with_value (Fd 9) s2)) in
  netns_fd s1 = Some 3%nat /\
  fst (encode nla_encode (with_value (Fd 7) s1))
  = nla_encode fields (items s2) /\
  items s2 !! "value" = Some (PInt 7) /\
  netns_fd s2 = Some 3%nat /\
  (3%nat ∉ open_fds s2) /\
  fst (encode nla_encode (with_value (Fd 9) s2))
  = Raise (OSError "EBADF") /\
  items s3 !! "value" = Some (PInt 7) /\
  calls s3 = [sys_open "/var/run/netns/blue"; sys_close 3; sys_close 3].
Proof.
  assert (E1 : snd (encode nla_encode named_state)
               = opened "blue" named_state).
  { rewrite encode_unfold, (close_ok_spec named_state I).
    change (closed named_state) with named_state.
    rewrite (store_value_Name named_state "blue" eq_refl)
      by compute_done.
    reflexivity. }
  cbv zeta. rewrite E1.
  set (s1 := with_value (Fd 7) (opened "blue" named_state)).
  assert (F1 : netns_fd s1 = Some 3%nat) by (vm_compute; reflexivity).
  assert (Hok : close_ok s1).
  { unfold close_ok. rewrite F1. compute_done. }
  assert (E2 : encode nla_encode s1
               = (nla_encode fields
                    (<["value" := PInt 7]> (items (closed s1))),
                  State (value (closed s1)) (netns_fd (closed s1))
                    (<["value" := PInt 7]> (items (closed s1)))
                    (open_fds (closed s1)) (files (closed s1))
                    (calls (closed s1)))).
  { rewrite encode_unfold, (close_ok_spec s1 Hok).
    rewrite (store_value_Fd (closed s1) 7) by reflexivity.
    reflexivity. }
  rewrite E2. cbn [fst snd].
  set (s2 := State _ _ _ _ _ _).
  assert (F2 : netns_fd s2 = Some 3%nat) by (vm_compute; reflexivity).
  assert (Hstale : 3%nat ∉ open_fds (with_value (Fd 9) s2)) by compute_done.
  rewrite encode_unfold.
  rewrite (close_stale_spec (with_value (Fd 9) s2) 3%nat F2 Hstale).
  cbn [fst snd].
  split; [vm_compute; reflexivity|]. split; [reflexivity|].
  split; [apply lookup_insert_eq|]. split; [exact F2|].
  split; [exact Hstale|]. split; [reflexivity|].
  split; [apply lookup_insert_eq|]. vm_compute. reflexivity.
Qed.

(** C3, as stated, fails: [encode] on the name "blue" opens the
    descriptor 3 and returns with it open, no [close] having been
    called; the same holds when the base encoder raises. *)
Lemma encode_leaves_handle_open :
  (fst (encode (encode_fields LittleEndian) named_state)
   = Ok [x03; x00; x00; x00] /\
   (3%nat ∉ open_fds named_state) /\
   netns_fd (snd (encode (encode_fields LittleEndian) named_state))
   = Some 3%nat /\
   3%nat ∈ open_fds (snd (encode (encode_fields LittleEndian) named_state)) /\
   calls (snd (encode (encode_fields LittleEndian) named_state))
   = [sys_open "/var/run/netns/blue"]) /\
  (fst (encode (fun _ _ => Raise struct_error) named_state)
   = Raise struct_error /\
   3%nat ∈ open_fds
             (snd (encode (fun _ _ => Raise struct_error) named_state)) /\
   calls (snd (encode (fun _ _ => Raise struct_error) named_state))
   = [sys_open "/var/run/netns/blue"]).
Proof.
  split; [split; [|split; [|split; [|split]]]|split; [|split]].
  - vm_compute. reflexivity.
  - compute_done.
  - vm_compute. reflexivity.
  - compute_done.
  - vm_compute. reflexivity.
  - vm_compute. reflexivity.
  - compute_done.
  - vm_compute. reflexivity.
Qed.

(** C3, amended. When [encode] opens a descriptor for a name (the
    [close] at its start and the [open] go through), the descriptor is
    recorded in [netns_fd] and stored under 'value', and it is open when
    [encode] returns or raises out of the base encoder: [encode] calls
    [close] only at its start.  The descriptor is closed by [close], which
    [__del__] runs, and which the next [encode] runs first. *)
Theorem encode_keeps_handle
  (nla_encode : list (string * string) -> gmap string pyval ->
                result (list byte)) (s : state) (name : string) :
  value s = Name name ->
  close_ok s ->
  netns_run_dir +:+ "/" +:+ name ∈ files s ->
  exists fd,
    let s' := snd (encode nla_encode s) in
    (fd ∉ open_fds (closed s)) /\
    netns_fd s' = Some fd /\
    fd ∈ open_fds s' /\
    items s' !! "value" = Some (PInt (Z.of_nat fd)) /\
    fst (encode nla_encode s) = nla_encode fields (items s') /\
    calls s' = calls s ++ close_calls s
               ++ [sys_open (netns_run_dir +:+ "/" +:+ name)] /\
    fst (__del__ s') = Ok tt /\
    (fd ∉ open_fds (snd (__del__ s'))) /\
    calls (snd (__del__ s')) = calls s' ++ [sys_close fd] /\
    exists more,
      calls (snd (encode nla_encode s')) = calls s' ++ sys_close fd :: more.
Proof.
  intros Hv Hok Hfile. exists (fresh (open_fds (closed s))).
  assert (He : encode nla_encode s
               = (nla_encode fields (items (opened name (closed s))),
                  opened name (closed s))).
  { rewrite encode_unfold, (close_ok_spec s Hok).
    rewrite (store_value_Name (closed s) name)
      by (rewrite ?value_closed, ?files_closed; assumption).
    reflexivity. }
  rewrite He. cbn [fst snd]. cbv zeta.
  set (fd := fresh (open_fds (closed s))).
  assert (Hfd : netns_fd (opened name (closed s)) = Some fd) by reflexivity.
  assert (Hopen : fd ∈ open_fds (opened name (closed s))).
  { simpl. apply elem_of_union_l, elem_of_singleton. reflexivity. }
  assert (Hok' : close_ok (opened name (closed s))).
  { unfold close_ok. rewrite Hfd. exact Hopen. }
  split; [apply is_fresh|]. split; [exact Hfd|]. split; [exact Hopen|].
  split; [apply lookup_insert_eq|]. split; [reflexivity|].
  split; [simpl; now rewrite calls_closed, <- app_assoc|].
  unfold __del__. rewrite (close_ok_spec _ Hok'). cbn [fst snd].
  split; [reflexivity|].
  split.
  { unfold closed at 1. rewrite Hfd. simpl.
    rewrite elem_of_difference, elem_of_singleton. tauto. }
  split.
  { unfold closed at 1. rewrite Hfd. reflexivity. }
  rewrite encode_calls_spec. unfold encode_calls, close_calls.
  rewrite Hfd. simpl. eauto.
Qed.

Lemma encode_keeps_handle_witness :
  exists fd,
    netns_fd (snd (encode (encode_fields LittleEndian) named_state))
    = Some fd /\
    fd ∈ open_fds (snd (encode (encode_fields LittleEndian) named_state)) /\
    fd ∉ open_fds
           (snd (__del__
                   (snd (encode (encode_fields LittleEndian) named_state)))).
Proof.
  destruct (encode_keeps_handle (encode_fields LittleEndian) named_state
              "blue" eq_refl I)
    as (fd & _ & H1 & H2 & _ & _ & _ & _ & H3 & _).
  - compute_done.
  - exists fd. split; [exact H1|]. split; [exact H2|exact H3].
Defined.

End NetnsFacts.

(** * Further properties *)

(** ** Dictionaries *)

Section DictMore.

Context {K V : Type} `{EqDecision K}.
Implicit Types (d l : list (K * V)).

Lemma dict_get_Some k v d : dict_get k d = Some v -> (k, v) ∈ d.
Proof.
  induction d as [|[k' v'] d IH]; simpl; [discriminate|].
  destruct (decide (k = k')) as [->|Hne].
  - intros [= ->]. left.
  - intros H. right. auto.
Qed.

Lemma dict_get_is_Some k d : is_Some (dict_get k d) <-> k ∈ List.map fst d.
Proof.
  induction d as [|[k' v'] d IH]; simpl.
  - split; [intros [? [=]]|intros []%elem_of_nil].
  - destruct (decide (k = k')) as [->|Hne].
    + split; [intros _; left|eauto].
    + rewrite IH, elem_of_cons. tauto.
Qed.

Lemma elem_of_dict_set p k v d : p ∈ dict_set k v d -> p = (k, v) \/ p ∈ d.
Proof.
  induction d as [|[k' v'] d IH]; simpl.
  - intros ->%list_elem_of_singleton. now left.
  - destruct (decide (k = k')) as [->|Hne].
    + intros [->|H]%elem_of_cons; [now left|right; now right].
    + intros [->|H]%elem_of_cons; [right; left|].
      destruct (IH H) as [->|H']; [now left|right; now right].
Qed.

Lemma elem_of_dict_from l : forall d p,
  p ∈ fold_left (fun d kv => dict_set (fst kv) (snd kv) d) l d ->
  p ∈ d \/ p ∈ l.
Proof.
  induction l as [|[k v] l IH]; intros d p; simpl.
  - now left.
  - intros [H|H]%IH; [|right; now right].
    apply elem_of_dict_set in H as [->|H]; [right; left|now left].
Qed.

(** A dictionary holds only pairs it was built from. *)
Lemma elem_of_dict p l : p ∈ dict l -> p ∈ l.
Proof.
  intros [H|H]%elem_of_dict_from; [now apply elem_of_nil in H|exact H].
Qed.

End DictMore.

Lemma getitem_Ok {V} (d : list (string * V)) k v :
  getitem d k = Ok v <-> dict_get k d = Some v.
Proof.
  unfold getitem. destruct (dict_get k d); split; congruence.
Qed.

Lemma getitem_Raise {V} (d : list (string * V)) k :
  k ∉ List.map fst d -> getitem d k = Raise (KeyError (KStr k)).
Proof.
  intros H. unfold getitem.
  destruct (dict_get k d) as [v|] eqn:E; [|reflexivity].
  exfalso. apply H, dict_get_is_Some. eauto.
Qed.

(** ** One flag at a time *)

Lemma names2flags_from_cons symbolic flag rest ret mask :
  names2flags_from symbolic (flag :: rest) ret mask
  = ab ← flag_bits symbolic flag;
    names2flags_from symbolic rest (Z.lor ret (fst ab)) (Z.lor mask (snd ab)).
Proof.
  cbn [names2flags_from]. unfold flag_bits.
  destruct flag as [|c tl]; [reflexivity|].
  destruct (Ascii.eqb c "!").
  - destruct (getitem (IFF_NAMES symbolic) tl); [|reflexivity].
    cbn [mbind result_bind fst snd]. now rewrite Z.lor_0_r.
  - destruct (getitem (IFF_NAMES symbolic) (String c tl)); reflexivity.
Qed.

Lemma flag_bits_known symbolic flag :
  known_flag symbolic flag <-> exists ab, flag_bits symbolic flag = Ok ab.
Proof.
  unfold known_flag, flag_bits. destruct flag as [|c tl].
  - split; [now intros [[] _]|intros [? [=]]].
  - cbn [base_name]. destruct (Ascii.eqb c "!").
    + rewrite <- dict_get_is_Some. unfold getitem.
      destruct (dict_get tl (IFF_NAMES symbolic)) as [v|].
      * split; [eauto|intros _; split; [discriminate|eauto]].
      * split; [intros [_ [? [=]]]|intros [? [=]]].
    + rewrite <- dict_get_is_Some. unfold getitem.
      destruct (dict_get (String c tl) (IFF_NAMES symbolic)) as [v|].
      * split; [eauto|intros _; split; [discriminate|eauto]].
      * split; [intros [_ [? [=]]]|intros [? [=]]].
Qed.

Lemma flag_bits_unknown symbolic flag :
  ~ known_flag symbolic flag ->
  flag_bits symbolic flag = Raise (flag_error flag).
Proof.
  unfold known_flag, flag_bits, flag_error. destruct flag as [|c tl].
  - reflexivity.
  - intros H. rewrite decide_False by discriminate. cbn [base_name] in *.
    assert (Hk : base_name (String c tl) ∉ List.map fst (IFF_NAMES symbolic)).
    { cbn [base_name]. intros Hin. apply H. split; [discriminate|exact Hin]. }
    cbn [base_name] in Hk. destruct (Ascii.eqb c "!");
      now rewrite (getitem_Raise _ _ Hk).
Qed.

(** ** names2flags: failures *)

Lemma names2flags_from_known symbolic flags : forall ret mask,
  Forall (known_flag symbolic) flags ->
  exists r, names2flags_from symbolic flags ret mask = Ok r.
Proof.
  induction flags as [|flag rest IH]; intros ret mask Hall.
  - simpl. eauto.
  - apply Forall_cons in Hall as [Hflag Hrest].
    rewrite names2flags_from_cons.
    apply flag_bits_known in Hflag as [ab ->]. cbn [mbind result_bind].
    now apply IH.
Qed.

Lemma names2flags_from_first_unknown symbolic good bad rest : forall ret mask,
  Forall (known_flag symbolic) good ->
  ~ known_flag symbolic bad ->
  names2flags_from symbolic (good ++ bad :: rest) ret mask
  = Raise (flag_error bad).
Proof.
  induction good as [|flag good IH]; intros ret mask Hgood Hbad.
  - simpl app. rewrite names2flags_from_cons.
    now rewrite (flag_bits_unknown _ _ Hbad).
  - apply Forall_cons in Hgood as [Hflag Hgood].
    simpl app. rewrite names2flags_from_cons.
    apply flag_bits_known in Hflag as [ab ->]. cbn [mbind result_bind].
    now apply IH.
Qed.

Lemma names2flags_from_Ok symbolic flags : forall ret mask r,
  names2flags_from symbolic flags ret mask = Ok r ->
  Forall (known_flag symbolic) flags.
Proof.
  induction flags as [|flag rest IH]; intros ret mask r; [constructor|].
  rewrite names2flags_from_cons.
  destruct (flag_bits symbolic flag) as [ab|e] eqn:E; [|discriminate].
  cbn [mbind result_bind]. intros H. constructor.
  - apply flag_bits_known. eauto.
  - exact (IH _ _ _ H).
Qed.

(** X1. [names2flags] returns a pair exactly when every flag of the list
    is not empty and has its base name among the keys of [IFF_NAMES].
    Otherwise it raises for the first flag that is not so: [IndexError]
    when that flag is the empty string, else the [KeyError] of its base
    name; the flags after it are not looked at. *)
Theorem names2flags_failure (symbolic : string -> string)
  (flags : list string) :
  ((exists r, names2flags symbolic flags = Ok r) <->
   Forall (known_flag symbolic) flags) /\
  (forall good bad rest,
      flags = good ++ bad :: rest ->
      Forall (known_flag symbolic) good ->
      ~ known_flag symbolic bad ->
      names2flags symbolic flags
      = Raise (if decide (bad = "") then IndexError
               else KeyError (KStr (base_name bad)))).
Proof.
  split; [split|].
  - intros [r Hr]. exact (names2flags_from_Ok _ _ _ _ _ Hr).
  - intros H. unfold names2flags. apply names2flags_from_known, H.
  - intros good bad rest -> Hgood Hbad. unfold names2flags.
    apply names2flags_from_first_unknown; assumption.
Qed.

(** The third flag is not a name of the catalogue, the fourth is empty. *)
Lemma names2flags_failure_witness :
  names2flags id ["IFF_UP"; "!IFF_PROMISC"; "!IFF_BOGUS"; ""; "IFF_DEBUG"]
  = Raise (KeyError (KStr "IFF_BOGUS")).
Proof.
  apply (proj2 (names2flags_failure id
                  ["IFF_UP"; "!IFF_PROMISC"; "!IFF_BOGUS"; ""; "IFF_DEBUG"])
           ["IFF_UP"; "!IFF_PROMISC"] "!IFF_BOGUS" [""; "IFF_DEBUG"]).
  - reflexivity.
  - repeat constructor; try discriminate; compute_done.
  - intros [_ H]. revert H. compute_done.
Defined.

(** ** names2flags: how lists combine *)

(** The loop started from [(ret, mask)] adds to them what it computes
    from [(0, 0)]. *)
Lemma names2flags_from_shift symbolic flags : forall ret mask,
  names2flags_from symbolic flags ret mask
  = r ← names2flags_from symbolic flags 0 0;
    Ok (Z.lor ret (fst r), Z.lor mask (snd r)).
Proof.
  induction flags as [|flag rest IH]; intros ret mask.
  - simpl. now rewrite !Z.lor_0_r.
  - rewrite !names2flags_from_cons.
    destruct (flag_bits symbolic flag) as [[a b]|e]; [|reflexivity].
    cbn [mbind result_bind fst snd].
    rewrite (IH (Z.lor ret a)), (IH (Z.lor 0 a)).
    destruct (names2flags_from symbolic rest 0 0) as [[v m]|e]; [|reflexivity].
    cbn [mbind result_bind fst snd].
    now rewrite !Z.lor_0_l, !Z.lor_assoc.
Qed.

Lemma names2flags_from_app symbolic xs ys : forall ret mask,
  names2flags_from symbolic (xs ++ ys) ret mask
  = r ← names2flags_from symbolic xs ret mask;
    names2flags_from symbolic ys (fst r) (snd r).
Proof.
  induction xs as [|flag rest IH]; intros ret mask.
  - reflexivity.
  - simpl app. rewrite !names2flags_from_cons.
    destruct (flag_bits symbolic flag) as [[a b]|e]; [|reflexivity].
    cbn [mbind result_bind]. apply IH.
Qed.

(** X2. [names2flags] of two lists put one after the other is the
    bitwise or, value with value and mask with mask, of what it gives for
    each; it raises what the first list raises, else what the second
    raises. *)
Theorem names2flags_app (symbolic : string -> string)
  (xs ys : list string) :
  names2flags symbolic (xs ++ ys)
  = a ← names2flags symbolic xs;
    b ← names2flags symbolic ys;
    Ok (Z.lor (fst a) (fst b), Z.lor (snd a) (snd b)).
Proof.
  unfold names2flags. rewrite names2flags_from_app.
  destruct (names2flags_from symbolic xs 0 0) as [[v m]|e]; [|reflexivity].
  cbn [mbind result_bind fst snd]. apply names2flags_from_shift.
Qed.

Lemma names2flags_from_cons2 symbolic x y rest ret mask :
  names2flags_from symbolic (x :: y :: rest) ret mask
  = ab ← flag_bits symbolic x;
    cd ← flag_bits symbolic y;
    names2flags_from symbolic rest
      (Z.lor (Z.lor ret (fst ab)) (fst cd))
      (Z.lor (Z.lor mask (snd ab)) (snd cd)).
Proof.
  rewrite names2flags_from_cons.
  destruct (flag_bits symbolic x) as [ab|e]; [|reflexivity].
  cbn [mbind result_bind]. apply names2flags_from_cons.
Qed.

Lemma lor_swap a b c : Z.lor (Z.lor a b) c = Z.lor (Z.lor a c) b.
Proof. now rewrite <- !Z.lor_assoc, (Z.lor_comm b c). Qed.

Lemma names2flags_from_perm symbolic xs ys :
  xs ≡ₚ ys ->
  forall ret mask r,
    names2flags_from symbolic xs ret mask = Ok r ->
    names2flags_from symbolic ys ret mask = Ok r.
Proof.
  induction 1 as [|x xs ys _ IH|x y xs|xs ys zs _ IH1 _ IH2];
    intros ret mask r.
  - auto.
  - rewrite !names2flags_from_cons.
    destruct (flag_bits symbolic x) as [[a b]|e]; [|discriminate].
    cbn [mbind result_bind]. apply IH.
  - rewrite !names2flags_from_cons2.
    destruct (flag_bits symbolic x) as [[a b]|e];
      destruct (flag_bits symbolic y) as [[c d]|e'];
      cbn [mbind result_bind fst snd]; try discriminate.
    now rewrite (lor_swap ret c a), (lor_swap mask d b).
  - intros H. apply IH2, IH1, H.
Qed.

(** X3. The pair [names2flags] returns does not depend on the order of
    the flags: when it returns for a list, it returns the same pair for
    every rearrangement of the list (the order in which a [set] of names
    is iterated does not show in the result). *)
Theorem names2flags_order (symbolic : string -> string)
  (xs ys : list string) (r : Z * Z) :
  xs ≡ₚ ys ->
  names2flags symbolic xs = Ok r ->
  names2flags symbolic ys = Ok r.
Proof. intros Hp. unfold names2flags. apply names2flags_from_perm, Hp. Qed.

Lemma names2flags_order_witness :
  names2flags id ["!IFF_PROMISC"; "IFF_RUNNING"; "IFF_UP"] = Ok (0x41, 0x141).
Proof.
  apply (names2flags_order id ["IFF_RUNNING"; "!IFF_PROMISC"; "IFF_UP"]).
  - apply perm_swap.
  - vm_compute. reflexivity.
Defined.

(** ** names2flags: the pair it returns *)

Lemma bits_sub_testbit x y i :
  bits_sub x y -> Z.testbit x i = true -> Z.testbit y i = true.
Proof.
  unfold bits_sub. intros H Hx. rewrite <- H, Z.land_spec in Hx.
  now apply andb_true_iff in Hx.
Qed.

Lemma bits_sub_intro x y :
  (forall i, Z.testbit x i = true -> Z.testbit y i = true) -> bits_sub x y.
Proof.
  intros H. apply Z.bits_inj'. intros i _. rewrite Z.land_spec.
  destruct (Z.testbit x i) eqn:E; [|reflexivity]. now rewrite (H i E).
Qed.

Lemma bits_sub_lor a b c d :
  bits_sub a b -> bits_sub c d -> bits_sub (Z.lor a c) (Z.lor b d).
Proof.
  intros H1 H2. apply bits_sub_intro. intros i.
  rewrite !Z.lor_spec, !orb_true_iff.
  intros [H|H]; [left; exact (bits_sub_testbit _ _ _ H1 H)|
                 right; exact (bits_sub_testbit _ _ _ H2 H)].
Qed.

Lemma bits_sub_0 y : bits_sub 0 y.
Proof. apply Z.land_0_l. Qed.

Lemma bits_sub_refl x : bits_sub x x.
Proof. apply Z.land_diag. Qed.

Lemma bits_sub_le x y : 0 <= y -> bits_sub x y -> 0 <= x <= y.
Proof.
  intros Hy H. apply Z.ldiff_le; [exact Hy|].
  apply Z.bits_inj'. intros i _. rewrite Z.ldiff_spec, Z.bits_0.
  destruct (Z.testbit x i) eqn:E; [|reflexivity].
  now rewrite (bits_sub_testbit _ _ _ H E).
Qed.

Lemma IFF_NAMES_value symbolic name z :
  (name, z) ∈ IFF_NAMES symbolic -> z ∈ List.map snd IFF_globals.
Proof.
  unfold IFF_NAMES, map_namespace. cbn [fst].
  change (List.filter _ IFF_globals) with IFF_globals.
  intros ([i z'] & [= _ ->] & Hin)%elem_of_dict%elem_of_map.
  apply elem_of_map. now exists (i, z).
Qed.

Lemma IFF_values_sub_ALL :
  Forall (fun z => Z.land z IFF_ALL = z) (List.map snd IFF_globals).
Proof. compute_done. Qed.

Lemma getitem_IFF_NAMES_sub symbolic name z :
  getitem (IFF_NAMES symbolic) name = Ok z -> bits_sub z IFF_ALL.
Proof.
  intros H%getitem_Ok%dict_get_Some%IFF_NAMES_value.
  pose proof IFF_values_sub_ALL as HA. rewrite Forall_forall in HA.
  exact (HA z H).
Qed.

Lemma flag_bits_sub symbolic flag a b :
  flag_bits symbolic flag = Ok (a, b) ->
  bits_sub a b /\ bits_sub b IFF_ALL.
Proof.
  unfold flag_bits. destruct flag as [|c tl]; [discriminate|].
  destruct (Ascii.eqb c "!").
  - destruct (getitem (IFF_NAMES symbolic) tl) as [z|] eqn:E; [|discriminate].
    intros [= <- <-]. split; [apply bits_sub_0|].
    exact (getitem_IFF_NAMES_sub _ _ _ E).
  - destruct (getitem (IFF_NAMES symbolic) (String c tl)) as [z|] eqn:E;
      [|discriminate].
    intros [= <- <-]. split; [apply bits_sub_refl|].
    exact (getitem_IFF_NAMES_sub _ _ _ E).
Qed.

Lemma names2flags_from_sub symbolic flags : forall ret mask v m,
  bits_sub ret mask -> bits_sub mask IFF_ALL ->
  names2flags_from symbolic flags ret mask = Ok (v, m) ->
  bits_sub v m /\ bits_sub m IFF_ALL.
Proof.
  induction flags as [|flag rest IH]; intros ret mask v m H1 H2.
  - simpl. now intros [= <- <-].
  - rewrite names2flags_from_cons.
    destruct (flag_bits symbolic flag) as [[a b]|e] eqn:E; [|discriminate].
    cbn [mbind result_bind fst snd].
    destruct (flag_bits_sub _ _ _ _ E) as [Ha Hb].
    apply IH.
    + now apply bits_sub_lor.
    + rewrite <- (Z.lor_diag IFF_ALL). now apply bits_sub_lor.
Qed.

(** X4. In the pair (value, mask) that [names2flags] returns, every bit
    of the value is a bit of the mask, and every bit of the mask is one of
    the nineteen flag bits: 0 <= value <= mask <= 0x7ffff.  Both fit the
    unsigned 32-bit fields 'flags' and 'change' they are stored in. *)
Theorem names2flags_value_in_mask (symbolic : string -> string)
  (flags : list string) (value mask : Z) :
  names2flags symbolic flags = Ok (value, mask) ->
  Z.land value mask = value /\
  Z.land mask 0x7ffff = mask /\
  0 <= value <= mask /\ mask <= 0x7ffff /\
  0 <= value < 2 ^ 32 /\ 0 <= mask < 2 ^ 32.
Proof.
  intros H.
  destruct (names2flags_from_sub symbolic flags 0 0 value mask
              (bits_sub_0 0) (bits_sub_0 IFF_ALL) H) as [Hv Hm].
  assert (HA : IFF_ALL = 0x7ffff) by reflexivity. rewrite HA in Hm.
  destruct (bits_sub_le mask 0x7ffff ltac:(lia) Hm) as [Hm0 Hm1].
  destruct (bits_sub_le value mask Hm0 Hv) as [Hv0 Hv1].
  split; [exact Hv|]. split; [exact Hm|].
  change (2 ^ 32) with 4294967296. lia.
Qed.

Lemma names2flags_value_in_mask_witness :
  Z.land 0x41 0x141 = 0x41 /\ 0x141 <= 0x7ffff.
Proof.
  destruct (names2flags_value_in_mask id
              ["IFF_RUNNING"; "!IFF_PROMISC"; "IFF_UP"] 0x41 0x141)
    as (H1 & _ & _ & H2 & _); [vm_compute; reflexivity|].
  split; [exact H1|exact H2].
Defined.

(** ** flags2names: the mask, and back to names2flags *)

Lemma IFF_VALUES_flag symbolic flag name :
  (flag, name) ∈ IFF_VALUES symbolic -> flag ∈ List.map snd IFF_globals.
Proof.
  rewrite IFF_VALUES_eq. intros ([i z] & [= <- _] & Hin)%elem_of_map.
  apply elem_of_map. now exists (i, z).
Qed.

Lemma lfilter_ext_elem_of {A} (p q : A -> bool) (l : list A) :
  (forall x, x ∈ l -> p x = q x) -> List.filter p l = List.filter q l.
Proof.
  intros H. apply List.filter_ext_in. intros x Hx. apply H.
  now apply list_elem_of_In.
Qed.

(** X5. The mask of [flags2names] only narrows the flags: decoding
    [flags] under [mask] is decoding [flags & mask] under the default mask
    0xffffffff, and the two arguments can be exchanged. *)
Theorem flags2names_mask (symbolic : string -> string) (flags mask : Z) :
  flags2names symbolic flags mask
  = flags2names_default symbolic (Z.land flags mask) /\
  flags2names symbolic flags mask = flags2names symbolic mask flags.
Proof.
  unfold flags2names_default, flags2names. split; f_equal;
    apply lfilter_ext_elem_of; intros [f name] Hin; cbn [fst]; f_equal.
  - apply IFF_VALUES_flag in Hin.
    pose proof IFF_values_sub_ALL as HA. rewrite Forall_forall in HA.
    specialize (HA f Hin).
    assert (Hf : Z.land f 0xffffffff = f).
    { apply bits_sub_intro. intros i Hi.
      assert (Hi' : Z.testbit IFF_ALL i = true)
        by exact (bits_sub_testbit _ _ _ HA Hi).
      destruct (Z.neg_nonneg_cases i) as [Hn|Hn];
        [now rewrite Z.testbit_neg_r in Hi|].
      change 0xffffffff with (Z.ones 32). apply Z.ones_spec_low.
      split; [exact Hn|].
      destruct (Z.lt_ge_cases i 32) as [Hlt|Hge]; [exact Hlt|].
      change IFF_ALL with (Z.ones 19) in Hi'.
      rewrite Z.ones_spec_high in Hi' by lia. discriminate. }
    rewrite Hf. rewrite <- Z.land_assoc. f_equal. apply Z.land_comm.
  - rewrite <- !Z.land_assoc. f_equal. apply Z.land_comm.
Qed.

Lemma orlist_filter_listed zs value mask :
  Forall single_bit zs ->
  orlist (List.filter (fun z => Z.eqb (Z.land (Z.land z mask) value) z) zs)
  = Z.land (Z.land value mask) (orlist zs).
Proof.
  intros Hzs. apply Z.bits_inj'. intros i Hi.
  apply eq_true_iff_eq.
  rewrite !Z.land_spec, !andb_true_iff.
  rewrite (testbit_orlist zs i Hzs Hi).
  rewrite testbit_orlist; [|
    apply Forall_forall; intros z [Hz _]%elem_of_lfilter;
    rewrite Forall_forall in Hzs; now apply Hzs|exact Hi].
  rewrite elem_of_lfilter, listed_pow2, andb_true_iff by exact Hi.
  tauto.
Qed.

Lemma map_flag_value_listed symbolic (p : Z -> bool) (l : list (string * Z)) :
  (forall i z, (i, z) ∈ l -> flag_value symbolic (symbolic i) = z) ->
  List.map (flag_value symbolic)
    (List.map snd
       (List.filter (fun fv => p (fst fv))
          (List.map (fun iv => (snd iv, symbolic (fst iv))) l)))
  = List.filter p (List.map snd l).
Proof.
  induction l as [|[i z] l IH]; intros H; [reflexivity|].
  cbn [List.map List.filter fst snd].
  destruct (p z); cbn [List.map snd].
  - rewrite (H i z) by left. f_equal. apply IH.
    intros i' z' Hin. apply H. now right.
  - apply IH. intros i' z' Hin. apply H. now right.
Qed.

(** X6. Over a catalogue whose names are distinct, not empty and do not
    start with "!": the names that [flags2names] lists for (flags, mask)
    are all accepted by [names2flags], which gives back, as value and as
    mask alike, the flag bits set in both: [flags & mask & 0x7ffff]. *)
Theorem names2flags_flags2names (symbolic : string -> string)
  (flags mask : Z) :
  NoDup (catalogue_order symbolic) ->
  Forall plain (catalogue_order symbolic) ->
  names2flags symbolic (flags2names symbolic flags mask)
  = Ok (Z.land (Z.land flags mask) 0x7ffff,
        Z.land (Z.land flags mask) 0x7ffff).
Proof.
  intros Hnd Hplain.
  set (L := flags2names symbolic flags mask).
  assert (HL : forall name, name ∈ L ->
             name ∈ List.map fst (IFF_NAMES symbolic)).
  { intros name (bit & Hin & _)%flags2names_elem_of.
    rewrite (IFF_NAMES_keys symbolic Hnd),
      <- (catalogue_order_eq symbolic).
    apply elem_of_map. now exists (bit, name). }
  assert (Hplain' : forall name, name ∈ L ->
             is_negated name = false /\ base_name name = name).
  { intros name Hin. pose proof (HL name Hin) as Hk.
    rewrite (IFF_NAMES_keys symbolic Hnd) in Hk.
    rewrite Forall_forall in Hplain. destruct (Hplain name Hk) as [Hne Hneg].
    split; [exact Hneg|]. destruct name as [|c tl]; [reflexivity|].
    cbn [is_negated base_name] in Hneg |- *. now rewrite Hneg. }
  assert (Hnn : non_negated L = L).
  { unfold non_negated. apply forallb_filter_id, forallb_forall.
    intros name Hin%list_elem_of_In. apply negb_true_iff.
    now apply Hplain'. }
  assert (Hbase : List.map base_name L = L).
  { rewrite <- (List.map_id L) at 2. apply List.map_ext_in.
    intros name Hin%list_elem_of_In. now apply Hplain'. }
  unfold names2flags.
  rewrite (names2flags_from_spec symbolic Hnd Hplain).
  2:{ apply Forall_forall. intros name Hin. exists name.
      split; [now apply HL|now left]. }
  rewrite Hnn, Hbase, !Z.lor_0_l.
  assert (Hv : orlist (List.map (flag_value symbolic) L)
               = Z.land (Z.land flags mask) 0x7ffff).
  { unfold L, flags2names. rewrite IFF_VALUES_eq.
    rewrite (map_flag_value_listed symbolic
               (fun f => Z.eqb (Z.land (Z.land f mask) flags) f)).
    - rewrite (orlist_filter_listed _ flags mask IFF_values_single_bit).
      reflexivity.
    - intros i z Hin. now apply flag_value_global. }
  now rewrite Hv.
Qed.

Lemma names2flags_flags2names_witness :
  names2flags id (flags2names id 0xfff00041 0x1ff)
  = Ok (Z.land (Z.land 0xfff00041 0x1ff) 0x7ffff,
        Z.land (Z.land 0xfff00041 0x1ff) 0x7ffff).
Proof.
  apply (names2flags_flags2names id 0xfff00041 0x1ff); compute_done.
Defined.

(** ** The state tables *)

Lemma dict_map_from_lookup_Some {K V} `{Countable K} (pairs : list (K * V)) :
  forall (acc : gmap K V) k v,
    fold_left (fun d kv => <[fst kv := snd kv]> d) pairs acc !! k = Some v ->
    (k, v) ∈ pairs \/ acc !! k = Some v.
Proof.
  induction pairs as [|[k' v'] rest IH]; intros acc k v; simpl.
  - now right.
  - intros [Hin|Hacc]%IH; [left; now right|].
    destruct (decide (k' = k)) as [->|Hne].
    + rewrite lookup_insert_eq in Hacc. injection Hacc as ->. left. left.
    + rewrite lookup_insert_ne in Hacc by exact Hne. now right.
Qed.

Lemma dict_map_lookup_Some {K V} `{Countable K} (pairs : list (K * V)) k v :
  dict_map pairs !! k = Some v -> (k, v) ∈ pairs.
Proof.
  intros [Hin|Hacc]%dict_map_from_lookup_Some; [exact Hin|].
  now rewrite lookup_empty in Hacc.
Qed.

Lemma dict_map_lookup_elem_of {K V} `{Countable K} (pairs : list (K * V)) k v :
  NoDup (List.map fst pairs) -> (k, v) ∈ pairs -> dict_map pairs !! k = Some v.
Proof.
  unfold dict_map. generalize (∅ : gmap K V).
  induction pairs as [|[k' v'] rest IH]; intros acc Hnd Hin; simpl.
  - now apply elem_of_nil in Hin.
  - simpl in Hnd. apply NoDup_cons in Hnd as [Hk Hnd].
    apply elem_of_cons in Hin as [[= -> ->]|Hin].
    + rewrite dict_map_from_lookup_ne by exact Hk. apply lookup_insert_eq.
    + now apply IH.
Qed.

Lemma state_by_name_enumerate name code :
  state_by_name !! name = Some code <-> (code, name) ∈ enumerate states.
Proof.
  unfold state_by_name. split.
  - intros ([c n] & [= <- <-] & Hin)%dict_map_lookup_Some%elem_of_map.
    exact Hin.
  - intros Hin. apply dict_map_lookup_elem_of; [compute_done|].
    apply elem_of_map. now exists (code, name).
Qed.

Lemma state_by_code_enumerate name code :
  state_by_code !! code = Some name <-> (code, name) ∈ enumerate states.
Proof.
  unfold state_by_code. split.
  - apply dict_map_lookup_Some.
  - apply dict_map_lookup_elem_of. compute_done.
Qed.

(** X7. The two state tables are each other's inverse: [state_by_name]
    maps a name to a code exactly when [state_by_code] maps that code to
    the name, which is when the name stands at that index in [states]. *)
Theorem state_tables_inverse (name : string) (code : Z) :
  (state_by_name !! name = Some code <-> state_by_code !! code = Some name) /\
  (state_by_code !! code = Some name <->
   0 <= code /\ states !! Z.to_nat code = Some name).
Proof.
  split; [now rewrite state_by_name_enumerate, state_by_code_enumerate|].
  rewrite state_by_code_enumerate. unfold enumerate.
  rewrite elem_of_lookup_imap. split.
  - intros (i & n & [= -> ->] & Hi). rewrite Nat2Z.id. split; [lia|exact Hi].
  - intros [H0 Hi]. exists (Z.to_nat code), name.
    split; [|exact Hi]. f_equal. lia.
Qed.

(** X8. [state.decode] reads the first byte of the payload: a byte from 0
    to 6 gives the name at that index of [states], any other byte raises
    the [KeyError] of the lookup in [state_by_code]. *)
Theorem state_decode_byte (bo : byteorder) :
  (forall b rest,
      ifinfbase.state.decode bo (b :: rest)
      = match states !! Z.to_nat (Z_of_byte b) with
        | Some name => Ok name
        | None => Raise (KeyError (KInt (Z_of_byte b)))
        end) /\
  (forall b rest,
      7 <= Z_of_byte b ->
      ifinfbase.state.decode bo (b :: rest)
      = Raise (KeyError (KInt (Z_of_byte b)))).
Proof.
  assert (H : forall b rest,
      ifinfbase.state.decode bo (b :: rest)
      = match states !! Z.to_nat (Z_of_byte b) with
        | Some name => Ok name
        | None => Raise (KeyError (KInt (Z_of_byte b)))
        end).
  { intros b rest. destruct bo, b; reflexivity. }
  split; [exact H|].
  intros b rest Hb. rewrite H.
  rewrite (lookup_ge_None_2 states); [reflexivity|].
  change (length states) with 7%nat. lia.
Qed.

Lemma state_decode_byte_witness :
  ifinfbase.state.decode BigEndian [x07; x00]
  = Raise (KeyError (KInt (Z_of_byte x07))).
Proof.
  apply (proj2 (state_decode_byte BigEndian) x07 [x00]).
  vm_compute. discriminate.
Defined.

(** ** ifinfbase.encode, once more *)

(** X9. Encoding a message a second time changes nothing more: the
    message [encode] leaves holds no flag names any longer, so a second
    [encode] hands the same message to the base encoder.  When [encode]
    raises before the base encoder (no 'flags' field, or a flag name
    [names2flags] refuses), the message is as it was, whatever the base
    encoder is. *)
Theorem encode_again (symbolic : string -> string)
  (super_encode : gmap string pyval -> result (list byte))
  (self : gmap string pyval) :
  let self' := fst (ifinfbase.encode symbolic super_encode self) in
  ifinfbase.encode symbolic super_encode self'
  = ifinfbase.encode symbolic super_encode self /\
  ((ifinfbase.encode symbolic super_encode self = (self', super_encode self')
    /\ exists v, self' !! "flags" = Some v /\ ifinfbase.names_of v = None) \/
   (exists e, forall other,
       ifinfbase.encode symbolic other self = (self, Raise e))).
Proof.
  cbv zeta. unfold ifinfbase.encode at 2 3 4 5 6 7. unfold getfield.
  destruct (self !! "flags") as [f|] eqn:Hf.
  - destruct (ifinfbase.names_of f) as [names|] eqn:Hn.
    + destruct (names2flags symbolic names) as [[v m]|e] eqn:Hr.
      * cbn [fst].
        assert (Hl : (<["change" := PInt m]> (<["flags" := PInt v]> self))
                       !! "flags" = Some (PInt v))
          by now rewrite lookup_insert_ne, lookup_insert_eq.
        split.
        -- unfold ifinfbase.encode, getfield. now rewrite Hl.
        -- left. split; [reflexivity|]. now exists (PInt v).
      * cbn [fst]. split.
        -- unfold ifinfbase.encode, getfield. now rewrite Hf, Hn, Hr.
        -- right. exists e. intros other.
           unfold ifinfbase.encode, getfield. now rewrite Hf, Hn, Hr.
    + cbn [fst]. split.
      * unfold ifinfbase.encode, getfield. now rewrite Hf, Hn.
      * left. split; [reflexivity|]. now exists f.
  - cbn [fst]. split.
    + unfold ifinfbase.encode, getfield. now rewrite Hf.
    + right. exists (KeyError (KStr "flags")). intros other.
      unfold ifinfbase.encode, getfield. now rewrite Hf.
Qed.

(** ** The netns_fd attribute, once more *)

Section NetnsMore.

Import ifinfbase.netns_fd.

Variable nla_encode :
  list (string * string) -> gmap string pyval -> result (list byte).

Lemma encode_Name_ok s name :
  value s = Name name -> close_ok s -> netns_path name ∈ files s ->
  encode nla_encode s
  = (nla_encode fields (items (opened name (closed s))),
     opened name (closed s)).
Proof.
  intros Hv Hok Hfile. rewrite encode_unfold, (close_ok_spec s Hok).
  rewrite (store_value_Name (closed s) name)
    by (rewrite ?value_closed, ?files_closed; assumption).
  reflexivity.
Qed.

Lemma encode_stale s fd :
  netns_fd s = Some fd -> fd ∉ open_fds s ->
  encode nla_encode s
  = (Raise (OSError "EBADF"),
     State (value s) (netns_fd s) (items s) (open_fds s) (files s)
       (calls s ++ [sys_close fd])).
Proof.
  intros Hfd Hnot. rewrite encode_unfold.
  now rewrite (close_stale_spec s fd Hfd Hnot).
Qed.

(** X10. When the name cannot be opened, [encode] raises the [OSError]
    of [os.open] after its one attempt: the base encoder is not reached,
    nothing is stored under 'value', no descriptor is opened, and
    [netns_fd] is left as it was. *)
Theorem encode_open_fails (s : state) (name : string) :
  value s = Name name ->
  close_ok s ->
  netns_run_dir +:+ "/" +:+ name ∉ files s ->
  let s' := snd (encode nla_encode s) in
  fst (encode nla_encode s) = Raise (OSError "ENOENT") /\
  netns_fd s' = netns_fd s /\
  items s' = items s /\
  open_fds s' ⊆ open_fds s /\
  calls s' = calls s ++ close_calls s
             ++ [sys_open (netns_run_dir +:+ "/" +:+ name)].
Proof.
  intros Hv Hok Hfile. cbv zeta.
  rewrite encode_unfold, (close_ok_spec s Hok).
  rewrite (store_value_Name_missing (closed s) name)
    by (rewrite ?value_closed, ?files_closed; assumption).
  cbn [fst snd netns_fd items open_fds calls].
  rewrite netns_fd_closed, items_closed, calls_closed, <- app_assoc.
  repeat split; try reflexivity. apply open_fds_closed.
Qed.

(** X11. [close] closes the descriptor but keeps it in [netns_fd].
    Right after a [close] that went through, a second [close] and an
    [encode] alike call [os.close] on the closed descriptor and raise its
    [OSError]; the [encode] opens nothing and stores nothing. *)
Theorem close_keeps_netns_fd (s : state) (fd : nat) :
  netns_fd s = Some fd ->
  fd ∈ open_fds s ->
  let s1 := snd (close s) in
  fst (close s) = Ok tt /\
  netns_fd s1 = Some fd /\
  (fd ∉ open_fds s1) /\
  fst (close s1) = Raise (OSError "EBADF") /\
  encode nla_encode s1
  = (Raise (OSError "EBADF"),
     State (value s1) (netns_fd s1) (items s1) (open_fds s1) (files s1)
       (calls s1 ++ [sys_close fd])).
Proof.
  intros Hfd Hopen. cbv zeta.
  assert (Hok : close_ok s) by (unfold close_ok; now rewrite Hfd).
  rewrite (close_ok_spec s Hok). cbn [fst snd].
  assert (H1 : netns_fd (closed s) = Some fd)
    by now rewrite netns_fd_closed.
  assert (H2 : fd ∉ open_fds (closed s)).
  { unfold closed. rewrite Hfd. cbn [open_fds].
    rewrite elem_of_difference, elem_of_singleton. tauto. }
  split; [reflexivity|]. split; [exact H1|]. split; [exact H2|].
  split.
  - now rewrite (close_stale_spec (closed s) fd H1 H2).
  - exact (encode_stale (closed s) fd H1 H2).
Qed.

(** X12. Encoding a name again does not pile up descriptors: the second
    [encode] first closes the descriptor the first one opened, then opens
    one anew, so that after each of them the attribute holds exactly one
    descriptor beside those that were open before. *)
Theorem encode_again_one_descriptor (s : state) (name : string) :
  value s = Name name ->
  close_ok s ->
  netns_run_dir +:+ "/" +:+ name ∈ files s ->
  let s1 := snd (encode nla_encode s) in
  let s2 := snd (encode nla_encode s1) in
  exists fd1 fd2,
    netns_fd s1 = Some fd1 /\ netns_fd s2 = Some fd2 /\
    (fd1 ∉ open_fds (closed s)) /\ (fd2 ∉ open_fds (closed s)) /\
    open_fds s1 = {[fd1]} ∪ open_fds (closed s) /\
    open_fds s2 = {[fd2]} ∪ open_fds (closed s) /\
    calls s2 = calls s1 ++ [sys_close fd1;
                            sys_open (netns_run_dir +:+ "/" +:+ name)].
Proof.
  intros Hv Hok Hfile. cbv zeta.
  rewrite (encode_Name_ok s name Hv Hok Hfile). cbn [snd].
  set (C := open_fds (closed s)).
  set (s1 := opened name (closed s)).
  assert (Hfd1 : netns_fd s1 = Some (fresh C)) by reflexivity.
  assert (Hfresh : fresh C ∉ C) by apply is_fresh.
  assert (Ho1 : open_fds s1 = {[fresh C]} ∪ C) by reflexivity.
  assert (Hok1 : close_ok s1).
  { unfold close_ok. rewrite Hfd1, Ho1. set_solver. }
  assert (Hv1 : value s1 = Name name)
    by (unfold s1, opened; cbn [value]; now rewrite value_closed).
  assert (Hf1 : netns_path name ∈ files s1)
    by (unfold s1, opened; cbn [files]; now rewrite files_closed).
  rewrite (encode_Name_ok s1 name Hv1 Hok1 Hf1). cbn [snd].
  assert (Hc1 : open_fds (closed s1) = C).
  { unfold closed. rewrite Hfd1. cbn [open_fds]. rewrite Ho1.
    apply set_eq. intros x.
    rewrite elem_of_difference, elem_of_union, !elem_of_singleton.
    split; [tauto|]. intros Hx. split; [now right|]. now intros ->. }
  exists (fresh C), (fresh C).
  split; [exact Hfd1|].
  split; [unfold opened; cbn [netns_fd]; now rewrite Hc1|].
  split; [exact Hfresh|]. split; [exact Hfresh|].
  split; [exact Ho1|].
  split; [unfold opened; cbn [open_fds]; now rewrite Hc1|].
  unfold opened at 1. cbn [calls]. rewrite calls_closed.
  unfold close_calls. rewrite Hfd1. now rewrite <- app_assoc.
Qed.

End NetnsMore.

Section NetnsWitnesses.

Import ifinfbase.netns_fd.

Lemma encode_open_fails_witness :
  fst (encode (encode_fields LittleEndian) missing_state)
  = Raise (OSError "ENOENT") /\
  calls (snd (encode (encode_fields LittleEndian) missing_state))
  = [sys_open "/var/run/netns/red"].
Proof.
  destruct (encode_open_fails (encode_fields LittleEndian) missing_state
              "red" eq_refl I) as (H1 & _ & _ & _ & H2).
  - compute_done.
  - split; [exact H1|exact H2].
Defined.

Lemma close_keeps_netns_fd_witness :
  netns_fd (snd (close held_state)) = Some 3%nat /\
  fst (close (snd (close held_state))) = Raise (OSError "EBADF").
Proof.
  destruct (close_keeps_netns_fd (encode_fields LittleEndian) held_state 3
              eq_refl) as (_ & H1 & _ & H2 & _).
  - compute_done.
  - split; [exact H1|exact H2].
Defined.

Lemma encode_again_one_descriptor_witness :
  exists fd1 fd2,
    open_fds (snd (encode (encode_fields LittleEndian) named_state))
    = {[fd1]} ∪ open_fds (closed named_state) /\
    open_fds (snd (encode (encode_fields LittleEndian)
                     (snd (encode (encode_fields LittleEndian) named_state))))
    = {[fd2]} ∪ open_fds (closed named_state).
Proof.
  destruct (encode_again_one_descriptor (encode_fields LittleEndian)
              named_state "blue" eq_refl I)
    as (fd1 & fd2 & _ & _ & _ & _ & H1 & H2 & _).
  - compute_done.
  - exists fd1, fd2. split; [exact H1|exact H2].
Defined.

End NetnsWitnesses.

(** ** The link-info resolver, once more *)

Lemma get_attr_app_absent pre post name :
  name ∉ List.map fst pre ->
  ifinfbase.ifinfo.get_attr (pre ++ post) name
  = ifinfbase.ifinfo.get_attr post name.
Proof.
  induction pre as [|[n v] pre IH]; simpl; intros H; [reflexivity|].
  apply not_elem_of_cons in H as [Hne H].
  rewrite decide_False by congruence. auto.
Qed.

Lemma get_attr_filter attrs name :
  ifinfbase.ifinfo.get_attr
    (List.filter (fun a => String.eqb (fst a) name) attrs) name
  = ifinfbase.ifinfo.get_attr attrs name.
Proof.
  induction attrs as [|[n v] attrs IH]; [reflexivity|].
  cbn [List.filter fst]. destruct (String.eqb_spec n name) as [->|Hne].
  - cbn [ifinfbase.ifinfo.get_attr]. rewrite !decide_True by reflexivity.
    reflexivity.
  - cbn [ifinfbase.ifinfo.get_attr]. rewrite decide_False by exact Hne.
    exact IH.
Qed.

(** X13. [info_data] looks at nothing but the first IFLA_INFO_KIND
    attribute of the group: the attributes before it, all attributes after
    it and every attribute of another name, IFLA_INFO_SLAVE_KIND among
    them, leave its choice unchanged.  As [nla_map] gives 'info_data' for
    IFLA_INFO_DATA and for IFLA_INFO_SLAVE_DATA alike, the slave data is
    typed by IFLA_INFO_KIND too. *)
Theorem info_data_first_kind (attrs : list (string * pyval)) :
  ifinfbase.ifinfo.info_data attrs
  = ifinfbase.ifinfo.info_data
      (List.filter (fun a => String.eqb (fst a) "IFLA_INFO_KIND") attrs) /\
  (forall pre kind post,
      attrs = pre ++ ("IFLA_INFO_KIND", kind) :: post ->
      "IFLA_INFO_KIND" ∉ List.map fst pre ->
      ifinfbase.ifinfo.info_data attrs
      = ifinfbase.ifinfo.info_data [("IFLA_INFO_KIND", kind)]) /\
  (forall slave_kind,
      ifinfbase.ifinfo.info_data (("IFLA_INFO_SLAVE_KIND", slave_kind) :: attrs)
      = ifinfbase.ifinfo.info_data attrs) /\
  dict_get "IFLA_INFO_DATA" (dict ifinfbase.ifinfo.nla_map)
  = Some "info_data" /\
  dict_get "IFLA_INFO_SLAVE_DATA" (dict ifinfbase.ifinfo.nla_map)
  = Some "info_data".
Proof.
  unfold ifinfbase.ifinfo.info_data.
  split; [now rewrite get_attr_filter|].
  split; [|split; [|split; reflexivity]].
  - intros pre kind post -> Hpre.
    rewrite (get_attr_app_absent pre _ _ Hpre).
    reflexivity.
  - intros slave_kind. reflexivity.
Qed.

Lemma info_data_first_kind_witness :
  ifinfbase.ifinfo.info_data
    [("IFLA_INFO_SLAVE_KIND", PStr "bond"); ("IFLA_INFO_KIND", PStr "vlan");
     ("IFLA_INFO_KIND", PStr "veth"); ("IFLA_INFO_SLAVE_DATA", PNone)]
  = ifinfbase.ifinfo.info_data [("IFLA_INFO_KIND", PStr "vlan")].
Proof.
  apply (proj1 (proj2 (info_data_first_kind _))
           [("IFLA_INFO_SLAVE_KIND", PStr "bond")] (PStr "vlan")
           [("IFLA_INFO_KIND", PStr "veth"); ("IFLA_INFO_SLAVE_DATA", PNone)]).
  - reflexivity.
  - compute_done.
Defined.

(** ** The declared field lists *)

Lemma calcsize_cases fmt n :
  calcsize fmt = Some n ->
  (fmt = "B" /\ n = 1%nat) \/ (fmt = "H" /\ n = 2%nat) \/
  (fmt = "i" /\ n = 4%nat) \/ (fmt = "I" /\ n = 4%nat) \/
  (fmt = "Q" /\ n = 8%nat).
Proof.
  unfold calcsize. repeat case_decide; intros [= <-]; subst; tauto.
Qed.

Lemma calcsize_pos fmt n : calcsize fmt = Some n -> (0 < n)%nat.
Proof.
  intros H. destruct (calcsize_cases fmt n H)
    as [[_ ->]|[[_ ->]|[[_ ->]|[[_ ->]|[_ ->]]]]]; lia.
Qed.

Lemma pad_in_range fmt n :
  calcsize fmt = Some n -> fmt_min fmt n <= 0 < fmt_max fmt n.
Proof.
  intros H. destruct (calcsize_cases fmt n H)
    as [[-> ->]|[[-> ->]|[[-> ->]|[[-> ->]|[-> ->]]]]];
    vm_compute; split; congruence.
Qed.

(** What decoding the encoding of [self] stores, field by field. *)
Lemma stored_names_cons name fmt fields :
  stored_names ((name, fmt) :: fields)
  = if is_pad name then stored_names fields
    else name :: stored_names fields.
Proof.
  unfold stored_names. cbn [List.map List.filter fst].
  now destruct (is_pad name).
Qed.

Lemma fields_value_codec bo fields self :
  Forall (field_fits self) fields ->
  exists bs,
    encode_fields bo fields self = Ok bs /\
    fields_size fields = Some (length bs) /\
    forall rest acc,
    exists self',
      decode_fields bo fields (bs ++ rest) acc = Ok (self', rest) /\
      forall name,
        self' !! name
        = if decide (name ∈ stored_names fields) then self !! name
          else acc !! name.
Proof.
  induction fields as [|[name fmt] fields IH]; intros Hfit.
  - exists []. split; [reflexivity|]. split; [reflexivity|].
    intros rest acc. exists acc. split; [reflexivity|].
    intros k. rewrite decide_False by apply not_elem_of_nil. reflexivity.
  - apply Forall_cons in Hfit as [(n & Hc & Hv) Hfit]. cbn [fst snd] in Hc, Hv.
    destruct (IH Hfit) as (tl & Htl & Stl & Dtl).
    pose proof (calcsize_pos fmt n Hc) as Hn.
    assert (Hp : exists z,
               (if is_pad name then Ok (PInt 0) else getfield self name)
               = Ok (PInt z) /\
               fmt_min fmt n <= z < fmt_max fmt n /\
               (is_pad name = false -> self !! name = Some (PInt z))).
    { destruct (is_pad name) eqn:Epad.
      - exists 0. split; [reflexivity|]. split; [now apply pad_in_range|].
        discriminate.
      - destruct Hv as [Hv|(z & Hz & Rz)]; [discriminate|].
        exists z. unfold getfield. rewrite Hz. auto. }
    destruct Hp as (z & Hget & Rz & Hself).
    destruct (unpack_pack bo fmt n z Hc Hn Rz) as (b & Hb & Lb & Ub).
    exists (b ++ tl). cbn [encode_fields decode_fields fields_size].
    rewrite Hget. cbn [mbind result_bind]. rewrite Hb.
    cbn [mbind result_bind]. rewrite Htl. cbn [mbind result_bind].
    split; [reflexivity|].
    split; [rewrite Hc, Stl, length_app, Lb; reflexivity|].
    intros rest acc. rewrite Hc, <- app_assoc.
    rewrite decide_False by (rewrite length_app; lia).
    rewrite take_app_length' by (symmetry; exact Lb). rewrite Ub.
    cbn [mbind result_bind].
    rewrite drop_app_length' by (symmetry; exact Lb).
    destruct (Dtl rest (if is_pad name then acc else <[name:=PInt z]> acc))
      as (self' & Hd & Hl).
    exists self'. split; [exact Hd|].
    intros k. rewrite Hl, stored_names_cons.
    destruct (is_pad name) eqn:Epad; [reflexivity|].
    destruct (decide (k ∈ stored_names fields)) as [Hin|Hnin].
    + rewrite decide_True by now right. reflexivity.
    + destruct (decide (k = name)) as [->|Hne].
      * rewrite decide_True by left. rewrite lookup_insert_eq.
        symmetry. now apply Hself.
      * rewrite decide_False by (intros [?|?]%elem_of_cons; contradiction).
        now apply lookup_insert_ne.
Qed.

Lemma stored_names_unpadded fields :
  Forall (fun nf => is_pad (fst nf) = false) fields ->
  stored_names fields = List.map fst fields.
Proof.
  induction 1 as [|[name fmt] fields Hp _ IH]; [reflexivity|].
  cbn [fst] in Hp. rewrite stored_names_cons, Hp, IH. reflexivity.
Qed.

(** Of the declared field lists, the codec does not cover the message
    header, which has the pad '__align', and that of [arp_ip_target],
    whose format '16I' holds sixteen integers. *)
Lemma declared_fields_not_covered :
  List.filter (fun fields => negb (codec_covers fields)) declared_fields
  = [ifinfbase.fields; ifinfbase.ifinfo.bond_data.arp_ip_target.fields].
Proof. vm_compute. reflexivity. Qed.

Lemma declared_fields_sizes :
  List.map fields_size (List.filter codec_covers declared_fields)
  = List.map Some [4; 1; 92; 184; 28; 8; 108; 120; 16; 124; 40]%nat.
Proof. vm_compute. reflexivity. Qed.

(** X14. With the field codec modelled from the spec: for a field list
    without pads, a [self] whose fields hold integers in the range of
    their formats is encoded into as many bytes as the widths add up to,
    and decoding these bytes gives back, under every field name, the value
    [self] holds; so a [self] with exactly these keys is read back as it
    is.  Of the thirteen field lists the module declares, eleven have
    one-integer formats and no pad, with 4, 1, 92, 184, 28, 8, 108, 120,
    16, 124 and 40 bytes; the other two are the message header, with its
    pad, and that of [arp_ip_target], with its format '16I'. *)
Theorem fields_round_trip (bo : byteorder) (fields : list (string * string))
  (self : gmap string pyval) :
  Forall (field_fits self) fields ->
  Forall (fun nf => is_pad (fst nf) = false) fields ->
  (length declared_fields = 13%nat /\
   List.filter (fun fields => negb (codec_covers fields)) declared_fields
   = [ifinfbase.fields; ifinfbase.ifinfo.bond_data.arp_ip_target.fields] /\
   List.map fields_size (List.filter codec_covers declared_fields)
   = List.map Some [4; 1; 92; 184; 28; 8; 108; 120; 16; 124; 40]%nat) /\
  exists bs self',
    encode_fields bo fields self = Ok bs /\
    fields_size fields = Some (length bs) /\
    decode_fields bo fields bs ∅ = Ok (self', []) /\
    (forall name, name ∈ List.map fst fields -> self' !! name = self !! name) /\
    (dom self = list_to_set (List.map fst fields) -> self' = self).
Proof.
  intros Hfit Hpad.
  split; [split; [reflexivity|split];
          [exact declared_fields_not_covered|exact declared_fields_sizes]|].
  destruct (fields_value_codec bo fields self Hfit) as (bs & He & Hs & Hd).
  destruct (Hd [] ∅) as (self' & Hdec & Hl). rewrite app_nil_r in Hdec.
  rewrite (stored_names_unpadded fields Hpad) in Hl.
  exists bs, self'. split; [exact He|]. split; [exact Hs|].
  split; [exact Hdec|]. split.
  - intros name Hin. rewrite Hl. now rewrite decide_True.
  - intros Hdom. apply map_eq. intros k. rewrite Hl.
    destruct (decide (k ∈ List.map fst fields)) as [Hin|Hnin]; [reflexivity|].
    rewrite lookup_empty. symmetry. apply not_elem_of_dom.
    rewrite Hdom. now rewrite elem_of_list_to_set.
Qed.

Lemma sample_ifmap_fits :
  Forall (field_fits sample_ifmap) ifinfbase.ifmap.fields.
Proof.
  repeat apply Forall_cons_2; [..|apply Forall_nil_2];
    eexists; (split; [reflexivity|]); right; eexists;
    (split; [reflexivity|]); vm_compute; split; congruence.
Qed.

Lemma ifmap_unpadded :
  Forall (fun nf => is_pad (fst nf) = false) ifinfbase.ifmap.fields.
Proof. compute_done. Qed.

Lemma fields_round_trip_witness :
  exists bs self',
    encode_fields BigEndian ifinfbase.ifmap.fields sample_ifmap = Ok bs /\
    fields_size ifinfbase.ifmap.fields = Some (length bs) /\
    decode_fields BigEndian ifinfbase.ifmap.fields bs ∅ = Ok (self', []) /\
    (forall name, name ∈ List.map fst ifinfbase.ifmap.fields ->
                  self' !! name = sample_ifmap !! name) /\
    (dom sample_ifmap = list_to_set (List.map fst ifinfbase.ifmap.fields) ->
     self' = sample_ifmap).
Proof.
  exact (proj2 (fields_round_trip BigEndian ifinfbase.ifmap.fields
                  sample_ifmap sample_ifmap_fits ifmap_unpadded)).
Defined.

(** ** From bytes to fields and back *)

Lemma Z_of_byte_range b : 0 <= Z_of_byte b < 256.
Proof.
  unfold Z_of_byte. pose proof (Byte.to_N_bounded b). lia.
Qed.

Lemma byte_of_Z_of_byte b r : byte_of_Z (Z_of_byte b + 256 * r) = b.
Proof.
  unfold byte_of_Z. rewrite (Z.mul_comm 256 r), Z.mod_add by lia.
  rewrite Z.mod_small by apply Z_of_byte_range.
  unfold Z_of_byte. rewrite N2Z.id, Byte.of_to_N. reflexivity.
Qed.

Lemma le_bytes_le_value bs : le_bytes (length bs) (le_value bs) = bs.
Proof.
  induction bs as [|b bs IH]; [reflexivity|].
  cbn [length le_value le_bytes]. rewrite byte_of_Z_of_byte. f_equal.
  rewrite (Z.mul_comm 256), Z.div_add by lia.
  rewrite Z.div_small by apply Z_of_byte_range. exact IH.
Qed.

Lemma le_value_range bs : 0 <= le_value bs < 2 ^ (8 * Z.of_nat (length bs)).
Proof.
  induction bs as [|b bs IH]; [simpl; lia|].
  cbn [length le_value].
  replace (8 * Z.of_nat (S (length bs))) with (8 + 8 * Z.of_nat (length bs))
    by lia.
  rewrite Z.pow_add_r by lia. change (2 ^ 8) with 256.
  pose proof (Z_of_byte_range b). lia.
Qed.

Lemma le_bytes_add n : forall z t,
  le_bytes n (z + 2 ^ (8 * Z.of_nat n) * t) = le_bytes n z.
Proof.
  induction n as [|n IH]; intros z t; [reflexivity|].
  cbn [le_bytes].
  replace (8 * Z.of_nat (S n)) with (8 + 8 * Z.of_nat n) by lia.
  rewrite Z.pow_add_r by lia. change (2 ^ 8) with 256.
  replace (z + 256 * 2 ^ (8 * Z.of_nat n) * t)
    with (z + (2 ^ (8 * Z.of_nat n) * t) * 256) by ring.
  f_equal.
  - unfold byte_of_Z. now rewrite Z.mod_add by lia.
  - rewrite Z.div_add by lia. apply IH.
Qed.

(** Packing what was unpacked gives the bytes back. *)
Lemma pack_unpack bo fmt n bs v :
  calcsize fmt = Some n -> length bs = n ->
  unpack bo fmt bs = Ok v -> pack bo fmt v = Ok bs.
Proof.
  intros Hc Hl. unfold unpack, pack. rewrite Hc, decide_True by exact Hl.
  intros [= <-].
  pose proof (calcsize_pos fmt n Hc) as Hn.
  pose proof (le_value_range (in_order bo bs)) as Hu.
  rewrite length_in_order, Hl in Hu.
  set (u := le_value (in_order bo bs)) in *.
  set (b := 8 * Z.of_nat n) in *.
  assert (Hb : 0 < b) by lia.
  assert (Hp : 2 ^ b = 2 * 2 ^ (b - 1)).
  { rewrite <- Z.pow_succ_r by lia. f_equal; lia. }
  assert (Hbytes : forall z, z = u \/ z = u - 2 ^ b ->
                             in_order bo (le_bytes n z) = bs).
  { intros z Hz.
    assert (Hz' : le_bytes n z = le_bytes n u).
    { destruct Hz as [->| ->]; [reflexivity|].
      replace (u - 2 ^ b) with (u + 2 ^ (8 * Z.of_nat n) * (-1))
        by (fold b; ring).
      apply le_bytes_add. }
    rewrite Hz'. unfold u. rewrite <- Hl at 1.
    rewrite <- (length_in_order bo bs), le_bytes_le_value.
    apply in_order_involutive. }
  unfold fmt_min, fmt_max. fold b.
  destruct (is_signed fmt); cbn [andb].
  - destruct (Z.leb_spec (2 ^ (b - 1)) u) as [H|H].
    + rewrite (proj2 (Z.leb_le _ _)), (proj2 (Z.ltb_lt _ _)) by lia.
      cbn [andb]. f_equal. apply Hbytes. now right.
    + rewrite (proj2 (Z.leb_le _ _)), (proj2 (Z.ltb_lt _ _)) by lia.
      cbn [andb]. f_equal. apply Hbytes. now left.
  - rewrite (proj2 (Z.leb_le _ _)), (proj2 (Z.ltb_lt _ _)) by lia.
    cbn [andb]. f_equal. apply Hbytes. now left.
Qed.

Lemma decode_fields_frame bo fields : forall buf acc self rest,
  decode_fields bo fields buf acc = Ok (self, rest) ->
  forall k, k ∉ List.map fst fields -> self !! k = acc !! k.
Proof.
  induction fields as [|[name fmt] fields IH]; intros buf acc self rest.
  - simpl. now intros [= <- _].
  - cbn [decode_fields List.map fst].
    destruct (calcsize fmt) as [n|]; [|discriminate].
    destruct (decide (length buf < n)%nat); [discriminate|].
    destruct (unpack bo fmt (take n buf)) as [v|]; [|discriminate].
    cbn [mbind result_bind]. intros Hd k [Hne Hk]%not_elem_of_cons.
    rewrite (IH _ _ _ _ Hd k Hk).
    destruct (is_pad name); [reflexivity|]. now apply lookup_insert_ne.
Qed.

Lemma fields_bytes_codec bo fields : forall n,
  fields_size fields = Some n ->
  NoDup (List.map fst fields) ->
  Forall (fun nf => is_pad (fst nf) = false) fields ->
  forall buf acc,
    (n <= length buf)%nat ->
    exists self,
      decode_fields bo fields buf acc = Ok (self, drop n buf) /\
      forall self',
        (forall k, k ∈ List.map fst fields -> self' !! k = self !! k) ->
        encode_fields bo fields self' = Ok (take n buf).
Proof.
  induction fields as [|[name fmt] fields IH]; intros n Hsize Hnd Hpad buf acc Hlen.
  - injection Hsize as <-. exists acc. split; [reflexivity|]. reflexivity.
  - cbn [fields_size] in Hsize.
    destruct (calcsize fmt) as [k|] eqn:Hk; [|discriminate].
    destruct (fields_size fields) as [m|] eqn:Hm; [|discriminate].
    injection Hsize as <-.
    cbn [List.map fst] in Hnd. apply NoDup_cons in Hnd as [Hname Hnd].
    apply Forall_cons in Hpad as [Hp Hpad]. cbn [fst] in Hp.
    cbn [decode_fields encode_fields]. rewrite Hk, Hp.
    rewrite decide_False by lia.
    destruct (unpack_ok bo fmt k (take k buf) Hk) as [v Hv];
      [rewrite length_take; lia|].
    rewrite Hv. cbn [mbind result_bind].
    destruct (IH m eq_refl Hnd Hpad (drop k buf) (<[name:=v]> acc))
      as (self & Hd & He); [rewrite length_drop; lia|].
    exists self. split; [now rewrite Hd, drop_drop|].
    intros self' Hagree.
    assert (Hself : self' !! name = Some v).
    { rewrite (Hagree name) by left.
      rewrite (decode_fields_frame _ _ _ _ _ _ Hd name Hname).
      apply lookup_insert_eq. }
    unfold getfield. rewrite Hself. cbn [mbind result_bind].
    rewrite (pack_unpack bo fmt k (take k buf) v Hk); [|rewrite length_take; lia|exact Hv].
    cbn [mbind result_bind].
    rewrite He by (intros k' Hk'; apply Hagree; now right).
    cbn [mbind result_bind]. f_equal. apply take_take_drop.
Qed.

Lemma declared_fields_unpadded :
  Forall (fun fields =>
            is_Some (fields_size fields) /\
            NoDup (List.map fst fields) /\
            Forall (fun nf => is_pad (fst nf) = false) fields)
    (List.filter codec_covers declared_fields).
Proof.
  repeat apply Forall_cons_2; [..|apply Forall_nil_2];
    (split; [vm_compute; eauto|split; compute_done]).
Qed.

(** X15. With the field codec modelled from the spec: for a field list
    without pads whose names are distinct, any buffer that is long enough
    decodes, the rest of the buffer is left over, and encoding what was
    decoded gives the decoded bytes back, byte for byte.  Of the thirteen
    field lists the module declares, eleven are such; the other two are
    the message header, which has a pad, and that of [arp_ip_target],
    whose format '16I' is not one of one integer. *)
Theorem fields_bytes_round_trip (bo : byteorder)
  (fields : list (string * string)) (n : nat) (buf : list byte) :
  fields_size fields = Some n ->
  NoDup (List.map fst fields) ->
  Forall (fun nf => is_pad (fst nf) = false) fields ->
  (n <= length buf)%nat ->
  (length declared_fields = 13%nat /\
   List.filter (fun fields => negb (codec_covers fields)) declared_fields
   = [ifinfbase.fields; ifinfbase.ifinfo.bond_data.arp_ip_target.fields] /\
   Forall (fun fields =>
             is_Some (fields_size fields) /\
             NoDup (List.map fst fields) /\
             Forall (fun nf => is_pad (fst nf) = false) fields)
     (List.filter codec_covers declared_fields)) /\
  exists self,
    decode_fields bo fields buf ∅ = Ok (self, drop n buf) /\
    encode_fields bo fields self = Ok (take n buf).
Proof.
  intros Hsize Hnd Hpad Hlen.
  split; [split; [reflexivity|split];
          [exact declared_fields_not_covered|exact declared_fields_unpadded]|].
  destruct (fields_bytes_codec bo fields n Hsize Hnd Hpad buf ∅ Hlen)
    as (self & Hd & He).
  exists self. split; [exact Hd|]. now apply He.
Qed.

Lemma fields_bytes_round_trip_witness :
  exists self,
    decode_fields LittleEndian ifinfbase.ifinfo.vlan_data.vlan_flags.fields
      [x01; x00; x00; x00; xff; xff; xff; xff; x2a] ∅
    = Ok (self, drop 8 [x01; x00; x00; x00; xff; xff; xff; xff; x2a]) /\
    encode_fields LittleEndian ifinfbase.ifinfo.vlan_data.vlan_flags.fields
      self
    = Ok (take 8 [x01; x00; x00; x00; xff; xff; xff; xff; x2a]).
Proof.
  apply (fields_bytes_round_trip LittleEndian
           ifinfbase.ifinfo.vlan_data.vlan_flags.fields 8
           [x01; x00; x00; x00; xff; xff; xff; xff; x2a]).
  - reflexivity.
  - compute_done.
  - compute_done.
  - simpl. lia.
Defined.

(** ** A state name and its byte *)

(** X16. What [state.encode] writes, [state.decode] reads back as the
    same name, in either byte order and whatever the attribute held
    before; so no two names are encoded into the same payload. *)
Theorem state_encode_decode (bo : byteorder) (self : gmap string pyval)
  (name : string) (bs : list byte) :
  ifinfbase.state.encode bo name self = Ok bs ->
  ifinfbase.state.decode bo bs = Ok name /\
  (forall self' name',
      ifinfbase.state.encode bo name' self' = Ok bs -> name' = name).
Proof.
  assert (H : forall s n,
             ifinfbase.state.encode bo n s = Ok bs ->
             ifinfbase.state.decode bo bs = Ok n).
  { intros s n. rewrite state_encode_eq.
    destruct (state_by_name !! n) as [code|] eqn:E; [|discriminate].
    apply state_by_name_enumerate, list_elem_of_In in E.
    vm_compute in E.
    repeat (destruct E as [[= <- <-]|E];
            [intros Hb; destruct bo; vm_compute in Hb;
             injection Hb as <-; reflexivity|]).
    destruct E. }
  intros He. split; [exact (H self name He)|].
  intros self' name' He'. apply H in He, He'. congruence.
Qed.

Lemma state_encode_decode_witness :
  ifinfbase.state.decode LittleEndian [x05] = Ok "DORMANT".
Proof.
  apply (state_encode_decode LittleEndian ∅ "DORMANT" [x05]).
  vm_compute. reflexivity.
Defined.

(** ** names2flags: every flag counts *)

Lemma names2flags_from_contains symbolic flags : forall ret mask v m flag a b,
  names2flags_from symbolic flags ret mask = Ok (v, m) ->
  flag ∈ flags ->
  flag_bits symbolic flag = Ok (a, b) ->
  bits_sub a v /\ bits_sub b m.
Proof.
  induction flags as [|f rest IH]; intros ret mask v m flag a b Hr Hin Hb.
  - now apply elem_of_nil in Hin.
  - rewrite names2flags_from_cons in Hr.
    destruct (flag_bits symbolic f) as [[c d]|e] eqn:E; [|discriminate].
    cbn [mbind result_bind fst snd] in Hr.
    apply elem_of_cons in Hin as [->|Hin].
    + rewrite E in Hb. injection Hb as <- <-.
      rewrite names2flags_from_shift in Hr.
      destruct (names2flags_from symbolic rest 0 0) as [[v' m']|]; [|discriminate].
      cbn [mbind result_bind fst snd] in Hr. injection Hr as <- <-.
      split; apply bits_sub_intro; intros i Hi;
        rewrite !Z.lor_spec, Hi; now rewrite ?orb_true_r.
    + exact (IH _ _ _ _ _ _ _ Hr Hin Hb).
Qed.

(** X17. In the pair (value, mask) that [names2flags] returns, the bit
    of every name listed without "!" is set in the value and in the mask,
    also when the list holds the same name with "!" as well, and the bit of
    every name listed with "!" is set in the mask: within one list a "!"
    does not clear what the plain name sets. *)
Theorem names2flags_every_flag (symbolic : string -> string)
  (flags : list string) (value mask : Z) (name : string) (bit : Z) :
  names2flags symbolic flags = Ok (value, mask) ->
  getitem (IFF_NAMES symbolic) name = Ok bit ->
  (name ∈ flags -> is_negated name = false ->
   Z.land bit value = bit /\ Z.land bit mask = bit) /\
  ("!" +:+ name ∈ flags -> Z.land bit mask = bit).
Proof.
  intros Hr Hbit. unfold names2flags in Hr.
  pose proof (names2flags_from_Ok _ _ _ _ _ Hr) as Hknown.
  rewrite Forall_forall in Hknown. split.
  - intros Hin Hneg. destruct (Hknown name Hin) as [Hne _].
    assert (Hb : flag_bits symbolic name = Ok (bit, bit)).
    { unfold flag_bits. destruct name as [|c tl]; [contradiction|].
      cbn [is_negated] in Hneg. now rewrite Hneg, Hbit. }
    exact (names2flags_from_contains _ _ _ _ _ _ _ _ _ Hr Hin Hb).
  - intros Hin.
    assert (Hb : flag_bits symbolic ("!" +:+ name) = Ok (0, bit)).
    { change ("!" +:+ name) with (String "!" name). unfold flag_bits.
      change (Ascii.eqb "!" "!") with true. cbv iota. now rewrite Hbit. }
    exact (proj2 (names2flags_from_contains _ _ _ _ _ _ _ _ _ Hr Hin Hb)).
Qed.

Lemma names2flags_every_flag_witness :
  Z.land 0x1 0x1 = 0x1 /\ Z.land 0x1 0x1 = 0x1.
Proof.
  apply (proj1 (names2flags_every_flag id ["!IFF_UP"; "IFF_UP"] 0x1 0x1
                  "IFF_UP" 0x1 ltac:(vm_compute; reflexivity)
                  ltac:(vm_compute; reflexivity))).
  - compute_done.
  - reflexivity.
Defined.
